(** * The firebase / prolific experiment runners

    A shallow embedding of
    [src/autora/experiment_runner/firebase_prolific/__init__.py]:
    the host-only runner [_firebase_run], the combined runner
    [_firebase_prolific_run] and the two factories.

    The runners talk to two external packages (the firebase
    experimentation manager and the prolific recruitment manager) and
    to [time.sleep].  Those are modelled as an interface [Collab] over
    an abstract world; every call is logged, with its arguments and its
    reply, in the list of events a computation emits.  The unbounded
    [while True] loops are run with fuel.

    The runners change no object they hold: [kwargs], the dict the
    campaign creation replies with and the dict a status poll replies
    with are only looked up.  They are modelled as values, which assumes
    that the collaborators keep no reference through which a later call
    would change a dict they have returned. *)

From stdpp Require Import gmap strings list sorting.
From Stdlib Require Import ZArith.

Local Open Scope Z_scope.

(** ** Python values *)

(** The values the runners inspect are integers and strings; [PyNone]
    stands for a missing value and [PyObj] for any object the runners
    only pass through (a credentials dict, a condition, an observation
    payload).  Floats are not modelled. *)
Inductive pyval : Type :=
| PyNone
| PyInt (n : Z)
| PyStr (s : string)
| PyObj (id : N).

Global Instance pyval_eq_dec : EqDecision pyval.
Proof. solve_decision. Defined.

(** The exceptions a runner can end with: the three its own statements
    raise, and whatever a collaborator raised, which the runners never
    catch. *)
Inductive exn : Type :=
| KeyError (key : string)
| TypeError
| UnboundLocalError (name : string)
| CollaboratorError (msg : string).

(** A value or an exception raised by an operator of the runner. *)
Inductive outcome (A : Type) : Type :=
| Ok (a : A)
| Err (e : exn).
Arguments Ok {A} a.
Arguments Err {A} e.

(** What a call to a collaborator comes back with. *)
Inductive reply (A : Type) : Type :=
| Done (a : A)
| Failed (msg : string).
Arguments Done {A} a.
Arguments Failed {A} msg.

(** A Python [dict] with string keys that is only looked up. *)
Abbreviation pydict := (gmap string pyval).

(** A Python [dict] whose iteration order matters: the items in
    insertion order.  It is well formed when its keys are distinct. *)
Abbreviation pyodict := (list (string * pyval)).

(** ** Operators *)

(** [v == "literal"]. *)
Definition py_eq_str (v : pyval) (lit : string) : bool :=
  match v with
  | PyStr s => bool_decide (s = lit)
  | _ => false
  end.

Fixpoint str_repeat (s : string) (n : nat) : string :=
  match n with
  | O => ""
  | S n' => s +:+ str_repeat s n'
  end.

(** [a * b]: product of integers, repetition of a string. *)
Definition py_mul (a b : pyval) : outcome pyval :=
  match a, b with
  | PyInt x, PyInt y => Ok (PyInt (x * y))
  | PyStr s, PyInt y => Ok (PyStr (str_repeat s (Z.to_nat y)))
  | PyInt x, PyStr s => Ok (PyStr (str_repeat s (Z.to_nat x)))
  | _, _ => Err TypeError
  end.

(** [a >= b]: integers by value, strings lexicographically. *)
Definition py_ge (a b : pyval) : outcome bool :=
  match a, b with
  | PyInt x, PyInt y => Ok (x >=? y)
  | PyStr s, PyStr t => Ok (String.leb t s)
  | _, _ => Err TypeError
  end.

(** [d[key]] on a dict. *)
Definition dict_getitem (d : pydict) (key : string) : outcome pyval :=
  match d !! key with
  | Some v => Ok v
  | None => Err (KeyError key)
  end.

(** The condition of lines 83-86 on the two status reads of a tick:
    [check_prolific["number_of_submissions"] >=
     check_prolific["total_available_places"]
     and check_firebase == "finished"]. *)
Definition completion (check_firebase : pyval) (check_prolific : pydict)
    : outcome bool :=
  match dict_getitem check_prolific "number_of_submissions" with
  | Ok number_of_submissions =>
      match dict_getitem check_prolific "total_available_places" with
      | Ok total_available_places =>
          match py_ge number_of_submissions total_available_places with
          | Ok enough => Ok (enough && py_eq_str check_firebase "finished")
          | Err e => Err e
          end
      | Err e => Err e
      end
  | Err e => Err e
  end.

(** Truth value of a dict: it is non-empty. *)
Definition dict_truthy (d : pydict) : bool := bool_decide (d ≠ ∅).

(** ** Observation aggregation *)

(** [observation.keys()], in iteration order. *)
Definition keys (observation : pyodict) : list string := observation.*1.

(** [sorted(...)] on strings: ascending in the lexicographic order of the
    characters.  (On the UTF-8 encoding the byte order is Python's code
    point order.) *)
Definition sorted (l : list string) : list string := merge_sort String.le l.

Fixpoint assoc (key : string) (observation : pyodict) : option pyval :=
  match observation with
  | [] => None
  | (k, v) :: rest => if decide (k = key) then Some v else assoc key rest
  end.

(** [observation[key]]. *)
Definition obs_getitem (observation : pyodict) (key : string) : outcome pyval :=
  match assoc key observation with
  | Some v => Ok v
  | None => Err (KeyError key)
  end.

Fixpoint comprehension {A B} (f : A → outcome B) (l : list A) : outcome (list B) :=
  match l with
  | [] => Ok []
  | x :: l' =>
      match f x with
      | Ok y =>
          match comprehension f l' with
          | Ok ys => Ok (y :: ys)
          | Err e => Err e
          end
      | Err e => Err e
      end
  end.

(** [[observation[key] for key in sorted(observation.keys())]] *)
Definition observation_list (observation : pyodict) : outcome (list pyval) :=
  comprehension (obs_getitem observation) (sorted (keys observation)).

(** ** Events *)

(** One call to a collaborator, with the arguments passed and the
    outcome received. *)
Inductive event : Type :=
| SendConditions (ns : string) (conditions : list pyval) (credentials : pyval)
    (r : reply unit)
| CheckFirebaseStatus (ns : string) (credentials time_out : pyval)
    (r : reply pyval)
| GetObservations (ns : string) (credentials : pyval) (r : reply pyodict)
| SetupStudy (name description url completion_time token : pyval)
    (total_available_places completion_code : pyval) (r : reply pydict)
| CheckProlificStatus (study_id token : pyval) (r : reply pydict)
| PublishStudy (study_id token : pyval) (r : reply unit)
| StartStudy (study_id token : pyval) (r : reply unit)
| PauseStudy (study_id token : pyval) (r : reply unit)
| Sleep (secs : pyval) (r : reply unit).

(** ** The collaborators *)

(** The imported functions, as transitions of an abstract world. *)
Class Collab (W : Type) : Type := {
  ext_send_conditions : string → list pyval → pyval → W → reply unit * W;
  ext_check_firebase_status : string → pyval → pyval → W → reply pyval * W;
  ext_get_observations : string → pyval → W → reply pyodict * W;
  ext_setup_study :
    pyval → pyval → pyval → pyval → pyval → pyval → pyval → W → reply pydict * W;
  ext_check_prolific_status : pyval → pyval → W → reply pydict * W;
  ext_publish_study : pyval → pyval → W → reply unit * W;
  ext_start_study : pyval → pyval → W → reply unit * W;
  ext_pause_study : pyval → pyval → W → reply unit * W;
  ext_sleep : pyval → W → reply unit * W
}.

(** ** The monad of the runners *)

Inductive result (A : Type) : Type :=
| Ret (a : A)
| Raise (e : exn)
| OutOfFuel.
Arguments Ret {A} a.
Arguments Raise {A} e.
Arguments OutOfFuel {A}.

(** What a computation leaves behind: its result, the world after it and
    the events it emitted, oldest first. *)
Record out (W A : Type) : Type := Out {
  res : result A;
  world : W;
  events : list event
}.
Arguments Out {W A} res world events.
Arguments res {W A} o.
Arguments world {W A} o.
Arguments events {W A} o.

Definition M (W A : Type) : Type := W → out W A.

Definition ret {W A} (a : A) : M W A := λ w, Out (Ret a) w [].

Definition raise {W A} (e : exn) : M W A := λ w, Out (Raise e) w [].

(** [o], after the events [evs]. *)
Definition prepend {W A} (evs : list event) (o : out W A) : out W A :=
  Out (res o) (world o) (evs ++ events o).

Definition bind {W A B} (m : M W A) (k : A → M W B) : M W B :=
  λ w,
    match m w with
    | Out (Ret a) w1 e1 => prepend e1 (k a w1)
    | Out (Raise e) w1 e1 => Out (Raise e) w1 e1
    | Out OutOfFuel w1 e1 => Out OutOfFuel w1 e1
    end.

Declare Scope run_scope.
Delimit Scope run_scope with run.
Notation "'let*' x ':=' m 'in' k" := (bind m (λ x, k))
  (at level 10, x name, m at level 100, k at level 200,
   format "'[v' 'let*'  x  ':='  m  'in' '/' k ']'") : run_scope.
Notation "m ';;;' k" := (bind m (λ _, k))
  (at level 100, k at level 200, right associativity,
   format "'[v' m  ';;;' '/' k ']'") : run_scope.

(** A pure operation that may raise. *)
Definition lift {W A} (o : outcome A) : M W A :=
  match o with
  | Ok a => ret a
  | Err e => raise e
  end.

(** A call to a collaborator: the world moves on and the call is logged. *)
Definition call {W A} (f : W → reply A * W) (log : reply A → event) : M W A :=
  λ w,
    match f w with
    | (Done a, w') => Out (Ret a) w' [log (Done a)]
    | (Failed msg, w') => Out (Raise (CollaboratorError msg)) w' [log (Failed msg)]
    end.

(** [if c: body] *)
Definition when {W} (c : bool) (body : M W unit) : M W unit :=
  if c then body else ret tt.

(** One iteration of [while True:] either falls through to the next one
    or returns from the function. *)
Inductive step (S A : Type) : Type :=
| Continue (s : S)
| Return (a : A).
Arguments Continue {S A} s.
Arguments Return {S A} a.

(** [while True: body], where [s] holds the local variables an iteration
    hands over to the next. *)
Fixpoint while_true {W S A} (fuel : nat) (body : S → M W (step S A)) (s : S)
  : M W A :=
  match fuel with
  | O => λ w, Out OutOfFuel w []
  | Datatypes.S fuel' =>
      bind (body s) (λ x,
        match x with
        | Continue s' => while_true fuel' body s'
        | Return a => ret a
        end)
  end.

(** ** The runners *)

(** The local variables of [_firebase_prolific_run] that are set before
    its loop and never assigned again. *)
Record locals : Type := Locals {
  prolific_dict : pydict;
  time_out : pyval;
  study_id : pyval
}.

Section runners.
Context {W : Type} `{!Collab W}.
Local Open Scope run_scope.

Definition send_conditions (ns : string) (conditions : list pyval)
    (credentials : pyval) : M W unit :=
  call (ext_send_conditions ns conditions credentials)
       (SendConditions ns conditions credentials).

Definition check_firebase_status (ns : string) (credentials time_out : pyval)
    : M W pyval :=
  call (ext_check_firebase_status ns credentials time_out)
       (CheckFirebaseStatus ns credentials time_out).

Definition get_observations (ns : string) (credentials : pyval) : M W pyodict :=
  call (ext_get_observations ns credentials) (GetObservations ns credentials).

Definition setup_study (name description url completion_time token : pyval)
    (total_available_places completion_code : pyval) : M W pydict :=
  call (ext_setup_study name description url completion_time token
          total_available_places completion_code)
       (SetupStudy name description url completion_time token
          total_available_places completion_code).

Definition check_prolific_status (study_id token : pyval) : M W pydict :=
  call (ext_check_prolific_status study_id token)
       (CheckProlificStatus study_id token).

Definition publish_study (study_id token : pyval) : M W unit :=
  call (ext_publish_study study_id token) (PublishStudy study_id token).

Definition start_study (study_id token : pyval) : M W unit :=
  call (ext_start_study study_id token) (StartStudy study_id token).

Definition pause_study (study_id token : pyval) : M W unit :=
  call (ext_pause_study study_id token) (PauseStudy study_id token).

Definition sleep (secs : pyval) : M W unit :=
  call (ext_sleep secs) (Sleep secs).

(** [d[key]] *)
Definition getitem (d : pydict) (key : string) : M W pyval :=
  lift (dict_getitem d key).

(** Reading a local variable that may not have been assigned yet. *)
Definition local {A} (name : string) (v : option A) : M W A :=
  match v with
  | Some a => ret a
  | None => raise (UnboundLocalError name)
  end.

(** Lines 39-41 and 87-89: the observations are fetched and returned
    in the order of their keys. *)
Definition collect {S} (firebase_credentials : pyval)
    : M W (step S (list pyval)) :=
  let* observation := get_observations "autora" firebase_credentials in
  let* observation_list := lift (observation_list observation) in
  ret (Return observation_list).

(** *** [_firebase_run] *)

(** Lines 36-42: one iteration of the loop. *)
Definition firebase_tick (firebase_credentials time_out sleep_time : pyval)
    (_ : unit) : M W (step unit (list pyval)) :=
  let* check_firebase :=
    check_firebase_status "autora" firebase_credentials time_out in
  if py_eq_str check_firebase "finished" then
    collect firebase_credentials
  else
    sleep sleep_time ;;;
    ret (Continue tt).

Definition _firebase_run (fuel : nat) (conditions : list pyval)
    (kwargs : pydict) : M W (list pyval) :=
  let* firebase_credentials := getitem kwargs "firebase_credentials" in
  let* time_out := getitem kwargs "time_out" in
  let* sleep_time := getitem kwargs "sleep_time" in
  send_conditions "autora" conditions firebase_credentials ;;;
  while_true fuel (firebase_tick firebase_credentials time_out sleep_time) tt.

(** *** [_firebase_prolific_run] *)

(** Lines 58-73: the host and the recruiter are set up. *)
Definition setup (conditions : list pyval) (kwargs : pydict) : M W locals :=
  let* firebase_credentials := getitem kwargs "firebase_credentials" in
  send_conditions "autora" conditions firebase_credentials ;;;
  let* study_name := getitem kwargs "study_name" in
  let* study_description := getitem kwargs "study_description" in
  let* study_url := getitem kwargs "study_url" in
  let* study_completion_time := getitem kwargs "study_completion_time" in
  let* prolific_token := getitem kwargs "prolific_token" in
  let total_available_places := PyInt (Z.of_nat (length conditions)) in
  let* completion_code := getitem kwargs "completion_code" in
  let* prolific_dict :=
    setup_study study_name study_description study_url study_completion_time
      prolific_token total_available_places completion_code in
  let* maximum_allowed_time := getitem prolific_dict "maximum_allowed_time" in
  let* time_out := lift (py_mul maximum_allowed_time (PyInt 60)) in
  let* study_id := getitem prolific_dict "id" in
  ret (Locals prolific_dict time_out study_id).

(** Lines 81-89: the recruiter is polled and completion is decided.
    [check_prolific] is the local variable of that name: [None] while
    it is unbound. *)
Definition poll_prolific (kwargs : pydict) (l : locals)
    (check_firebase : pyval) (check_prolific : option pydict)
    : M W (step (option pydict) (list pyval)) :=
  if dict_truthy (prolific_dict l) then
    let* prolific_token := getitem kwargs "prolific_token" in
    let* check_prolific := check_prolific_status (study_id l) prolific_token in
    let* complete := lift (completion check_firebase check_prolific) in
    if complete then
      let* firebase_credentials := getitem kwargs "firebase_credentials" in
      collect firebase_credentials
    else ret (Continue (Some check_prolific))
  else ret (Continue check_prolific).

(** [check_prolific["status"]] *)
Definition prolific_status (check_prolific : option pydict) : M W pyval :=
  let* check_prolific := local "check_prolific" check_prolific in
  getitem check_prolific "status".

(** Lines 92-108: the recruiter is brought in line with the host. *)
Definition reconcile (kwargs : pydict) (l : locals)
    (check_firebase : pyval) (check_prolific : option pydict) : M W unit :=
  when (py_eq_str check_firebase "finished") (ret tt) ;;;
  when (py_eq_str check_firebase "available") (
    let* status := prolific_status check_prolific in
    when (py_eq_str status "UNPUBLISHED") (
      let* prolific_token := getitem kwargs "prolific_token" in
      publish_study (study_id l) prolific_token) ;;;
    let* status := prolific_status check_prolific in
    when (py_eq_str status "PAUSED") (
      let* prolific_token := getitem kwargs "prolific_token" in
      start_study (study_id l) prolific_token)) ;;;
  when (py_eq_str check_firebase "unavailable") (
    let* status := prolific_status check_prolific in
    when (py_eq_str status "STARTED") (
      let* prolific_token := getitem kwargs "prolific_token" in
      pause_study (study_id l) prolific_token)).

(** Lines 91-109: what an iteration does when it has not returned. *)
Definition carry_on (kwargs : pydict) (l : locals) (check_firebase : pyval)
    (check_prolific : option pydict)
    : M W (step (option pydict) (list pyval)) :=
  reconcile kwargs l check_firebase check_prolific ;;;
  let* sleep_time := getitem kwargs "sleep_time" in
  sleep sleep_time ;;;
  ret (Continue check_prolific).

(** Lines 76-109: one iteration of the loop. *)
Definition tick (kwargs : pydict) (l : locals) (check_prolific : option pydict)
    : M W (step (option pydict) (list pyval)) :=
  let* firebase_credentials := getitem kwargs "firebase_credentials" in
  let* check_firebase :=
    check_firebase_status "autora" firebase_credentials (time_out l) in
  let* polled := poll_prolific kwargs l check_firebase check_prolific in
  match polled with
  | Return observation_list => ret (Return observation_list)
  | Continue check_prolific =>
      carry_on kwargs l check_firebase check_prolific
  end.

Definition _firebase_prolific_run (fuel : nat) (conditions : list pyval)
    (kwargs : pydict) : M W (list pyval) :=
  let* l := setup conditions kwargs in
  while_true fuel (tick kwargs l) None.

(** *** The factories *)

(** Lines 130 and 149: [f(x, **kwargs)], for an [f] whose first
    parameter is [conditions].  The configuration is passed on key by
    key beside the positional argument: when it has the key
    ["conditions"], that parameter is given two values and the call
    raises [TypeError] before the body of [f] is entered. *)
Definition spread {A} (kwargs : pydict) (body : M W A) : M W A :=
  match kwargs !! "conditions" with
  | Some _ => raise TypeError
  | None => body
  end.

Definition firebase_prolific_runner (fuel : nat) (kwargs : pydict)
    : list pyval → M W (list pyval) :=
  λ x, spread kwargs (_firebase_prolific_run fuel x kwargs).

Definition firebase_runner (fuel : nat) (kwargs : pydict)
    : list pyval → M W (list pyval) :=
  λ x, spread kwargs (_firebase_run fuel x kwargs).

End runners.

(** ** The reconciliation table of the specification *)

Inductive action : Type := Publish | Start | Pause.

Global Instance action_eq_dec : EqDecision action.
Proof. solve_decision. Defined.

(** The rows of the table: host status, campaign status, action. *)
Definition table : list (string * string * action) :=
  [ ("available", "UNPUBLISHED", Publish);
    ("available", "PAUSED", Start);
    ("unavailable", "STARTED", Pause) ].

(** The action of the first row that matches, if one does. *)
Fixpoint first_match (host campaign : pyval)
    (rows : list (string * string * action)) : option action :=
  match rows with
  | [] => None
  | (h, c, a) :: rest =>
      if py_eq_str host h && py_eq_str campaign c then Some a
      else first_match host campaign rest
  end.

Definition precedence_table (host campaign : pyval) : option action :=
  first_match host campaign table.

(** The recruiter action an event is, if it is one. *)
Definition recruiter_action (e : event) : option action :=
  match e with
  | PublishStudy _ _ _ => Some Publish
  | StartStudy _ _ _ => Some Start
  | PauseStudy _ _ _ => Some Pause
  | _ => None
  end.

Definition recruiter_actions (evs : list event) : list action :=
  omap recruiter_action evs.

(** The two status reads a tick of the combined runner opens with. *)
Definition snapshot (evs : list event) : option (pyval * pydict) :=
  match evs with
  | CheckFirebaseStatus _ _ _ (Done check_firebase)
      :: CheckProlificStatus _ _ (Done check_prolific) :: _ =>
      Some (check_firebase, check_prolific)
  | _ => None
  end.

(** Every event a computation emits, from any world, satisfies [P]. *)
Definition emits {W A} (P : event → Prop) (m : M W A) : Prop :=
  ∀ w, Forall P (events (m w)).

(** A postcondition on the result of a computation, from any world: [Q]
    for the value returned, [E] for the exception raised, [T] for running
    out of fuel. *)
Definition post {W A} (Q : A → Prop) (E : exn → Prop) (T : Prop) (m : M W A)
    : Prop :=
  ∀ w,
    match res (m w) with
    | Ret a => Q a
    | Raise e => E e
    | OutOfFuel => T
    end.

(** ** Classes of events *)

(** The calls that fetch the observations. *)
Definition is_fetch (e : event) : Prop :=
  match e with
  | GetObservations _ _ _ => True
  | _ => False
  end.

(** The calls that read a status. *)
Definition is_poll (e : event) : Prop :=
  match e with
  | CheckFirebaseStatus _ _ _ _ | CheckProlificStatus _ _ _ => True
  | _ => False
  end.

(** An exception other than the one for a local variable read before it
    is assigned. *)
Definition bound (e : exn) : Prop := ∀ name, e ≠ UnboundLocalError name.

(** What a tick that fetches ends with, by the reply to the fetch. *)
Definition collected {S} (r : reply pyodict) : result (step S (list pyval)) :=
  match r with
  | Done observation =>
      match observation_list observation with
      | Ok vs => Ret (Return vs)
      | Err e => Raise e
      end
  | Failed msg => Raise (CollaboratorError msg)
  end.

(** ** The shape of a run *)

Global Instance is_fetch_dec (e : event) : Decision (is_fetch e).
Proof. destruct e; simpl; apply _. Defined.

(** The number of fetches among some events. *)
Definition fetches (evs : list event) : nat := length (filter is_fetch evs).

(** The events of the last tick of a run, by the result of the run:
    [completing] are the events of a tick that found the run complete
    and fetched, by the reply to the fetch; [failing] those of a tick
    that raised before. *)
Definition final_tick_of (completing : list event → reply pyodict → Prop)
    (failing : list event → Prop) (r : result (list pyval)) (t : list event)
    : Prop :=
  match r with
  | Ret vs =>
      ∃ observation,
        completing t (Done observation) ∧
        observation_list observation = Ok vs
  | Raise e =>
      failing t ∨ ∃ msg, completing t (Failed msg) ∧ e = CollaboratorError msg
  | OutOfFuel => t = []
  end.

(** The events [evs] and the result [r] of a run keep the discipline of
    one fetch: no fetch before the loop or in a tick that fell through
    (each of them [continuing]); the last tick either makes no fetch,
    and then the run does not return, or is a [completing] one, and then
    the run has fetched once. *)
Definition fetch_discipline (continuing : list event → Prop)
    (completing : list event → reply pyodict → Prop)
    (r : result (list pyval)) (evs : list event) : Prop :=
  ∃ pre ticks final,
    evs = pre ++ concat ticks ++ final ∧
    Forall (λ e, ¬ is_fetch e) pre ∧
    Forall (λ t, continuing t ∧ Forall (λ e, ¬ is_fetch e) t) ticks ∧
    ((Forall (λ e, ¬ is_fetch e) final ∧ fetches evs = 0%nat ∧
      ∀ vs, r ≠ Ret vs) ∨
     ((∃ reply, completing final reply) ∧ fetches evs = 1%nat)).

(** ** The shape of a run of the combined runner *)

(** The events of a tick that fell through to the next one: it opened
    with a snapshot on which completion did not hold, and did not
    fetch. *)
Definition continuing_tick (t : list event) : Prop :=
  ∃ h cp,
    snapshot t = Some (h, cp) ∧ completion h cp = Ok false ∧
    Forall (λ e, ¬ is_fetch e) t.

(** The events of a tick that found the run complete: the snapshot, on
    which completion holds, and the fetch, replied to with [r]. *)
Definition completing_tick (t : list event) (r : reply pyodict) : Prop :=
  ∃ creds tm sid tok h cp,
    t = [CheckFirebaseStatus "autora" creds tm (Done h);
         CheckProlificStatus sid tok (Done cp);
         GetObservations "autora" creds r] ∧
    completion h cp = Ok true.

(** The events of a tick that raised before it could find the run
    complete. *)
Definition failing_tick (t : list event) : Prop :=
  Forall (λ e, ¬ is_fetch e) t ∧
  ∀ h cp, snapshot t = Some (h, cp) → completion h cp ≠ Ok true.

Definition final_tick : result (list pyval) → list event → Prop :=
  final_tick_of completing_tick failing_tick.

(** What the events before the loop of the combined runner can be. *)
Definition setup_event (conditions : list pyval) (e : event) : Prop :=
  match e with
  | SendConditions ns c _ _ => ns = "autora" ∧ c = conditions
  | SetupStudy _ _ _ _ _ places _ _ =>
      places = PyInt (Z.of_nat (length conditions))
  | _ => False
  end.

(** What the events of the loop of the combined runner can be. *)
Definition tick_event (l : locals) (e : event) : Prop :=
  match e with
  | CheckFirebaseStatus ns _ tm _ => ns = "autora" ∧ tm = time_out l
  | GetObservations ns _ _ => ns = "autora"
  | CheckProlificStatus sid _ _ | PublishStudy sid _ _
  | StartStudy sid _ _ | PauseStudy sid _ _ => sid = study_id l
  | Sleep _ _ => True
  | SendConditions _ _ _ _ | SetupStudy _ _ _ _ _ _ _ _ => False
  end.

(** ** The shape of a run of the host-only runner *)

(** The events of a tick of the host-only runner that fell through: a
    status other than finished, and the sleep. *)
Definition host_continuing_tick (t : list event) : Prop :=
  ∃ creds tm h secs,
    t = [CheckFirebaseStatus "autora" creds tm (Done h);
         Sleep secs (Done tt)] ∧
    py_eq_str h "finished" = false.

(** The events of a tick that read the status finished: the poll and
    the fetch, replied to with [r]. *)
Definition host_completing_tick (t : list event) (r : reply pyodict) : Prop :=
  ∃ creds tm h,
    t = [CheckFirebaseStatus "autora" creds tm (Done h);
         GetObservations "autora" creds r] ∧
    py_eq_str h "finished" = true.

(** The events of a tick that raised without having read the status
    finished. *)
Definition host_failing_tick (t : list event) : Prop :=
  Forall (λ e, ¬ is_fetch e) t ∧
  ∀ ns creds tm h rest,
    t = CheckFirebaseStatus ns creds tm (Done h) :: rest →
    py_eq_str h "finished" = false.

Definition host_final_tick : result (list pyval) → list event → Prop :=
  final_tick_of host_completing_tick host_failing_tick.

(** The calls to the recruitment manager. *)
Definition is_recruiter_call (e : event) : Prop :=
  match e with
  | SetupStudy _ _ _ _ _ _ _ _ | CheckProlificStatus _ _ _
  | PublishStudy _ _ _ | StartStudy _ _ _ | PauseStudy _ _ _ => True
  | _ => False
  end.

(** The namespace a call to the experimentation manager was given. *)
Definition host_call_namespace (e : event) : option string :=
  match e with
  | SendConditions ns _ _ _ | CheckFirebaseStatus ns _ _ _
  | GetObservations ns _ _ => Some ns
  | _ => None
  end.

(** What the events of the host-only runner can be. *)
Definition host_event (e : event) : Prop :=
  ¬ is_recruiter_call e ∧
  ∀ ns, host_call_namespace e = Some ns → ns = "autora".

(** ** A scripted world

    A world that answers the status polls from two scripts, one reply
    per poll, and every other call the same way each time. *)
Module Sim.

Record sim : Type := Sim {
  host_script : list pyval;
  recruiter_script : list pydict;
  campaign : pydict;
  stored : pyodict
}.

Definition next_host (w : sim) : reply pyval * sim :=
  match host_script w with
  | h :: rest =>
      (Done h, Sim rest (recruiter_script w) (campaign w) (stored w))
  | [] => (Failed "host unreachable", w)
  end.

Definition next_recruiter (w : sim) : reply pydict * sim :=
  match recruiter_script w with
  | d :: rest => (Done d, Sim (host_script w) rest (campaign w) (stored w))
  | [] => (Failed "recruiter unreachable", w)
  end.

Global Instance sim_collab : Collab sim := {|
  ext_send_conditions _ _ _ w := (Done tt, w);
  ext_check_firebase_status _ _ _ w := next_host w;
  ext_get_observations _ _ w := (Done (stored w), w);
  ext_setup_study _ _ _ _ _ _ _ w := (Done (campaign w), w);
  ext_check_prolific_status _ _ w := next_recruiter w;
  ext_publish_study _ _ w := (Done tt, w);
  ext_start_study _ _ w := (Done tt, w);
  ext_pause_study _ _ w := (Done tt, w);
  ext_sleep _ w := (Done tt, w)
|}.

Definition kwargs : pydict :=
  list_to_map [
    ("firebase_credentials", PyObj 1);
    ("time_out", PyInt 100);
    ("sleep_time", PyInt 10);
    ("study_name", PyStr "study");
    ("study_description", PyStr "description");
    ("study_url", PyStr "https://example.org");
    ("study_completion_time", PyInt 5);
    ("prolific_token", PyStr "token");
    ("completion_code", PyStr "code")
  ].

Definition status (s : string) (number_of_submissions total_available_places : Z)
    : pydict :=
  list_to_map [
    ("status", PyStr s);
    ("number_of_submissions", PyInt number_of_submissions);
    ("total_available_places", PyInt total_available_places)
  ].

Definition study : pydict :=
  list_to_map [("id", PyStr "s1"); ("maximum_allowed_time", PyInt 7)].

End Sim.

(** Worlds, configurations and locals to run the runners on. *)
Module Demo.
(** The locals a setup in the scripted world ends with. *)
Definition demo_locals : locals := Locals Sim.study (PyInt 420) (PyStr "s1").

Definition observations : pyodict :=
  [("c2", PyObj 2); ("c1", PyObj 1); ("c10", PyObj 10)].

(** A world in which the host has a free slot and the campaign is not
    published yet. *)
Definition unpublished : Sim.sim :=
  Sim.Sim [PyStr "available"] [Sim.status "UNPUBLISHED" 0 2] Sim.study
    observations.

(** The same statuses, read one tick later in another run. *)
Definition unpublished_later : Sim.sim :=
  Sim.Sim [PyStr "available"; PyStr "finished"]
    [Sim.status "UNPUBLISHED" 1 3; Sim.status "STARTED" 3 3] Sim.study [].

(** A world in which the campaign fills up over three ticks. *)
Definition campaign_world : Sim.sim :=
  Sim.Sim [PyStr "available"; PyStr "available"; PyStr "finished"]
    [Sim.status "UNPUBLISHED" 0 2; Sim.status "STARTED" 1 2;
     Sim.status "STARTED" 2 2]
    Sim.study observations.

(** A world for the host-only runner: a free slot, then finished, and
    two observations stored. *)
Definition host_world : Sim.sim :=
  Sim.Sim [PyStr "available"; PyStr "finished"] [] ∅
    [("B", PyObj 2); ("A", PyObj 1)].

(** A world in which the host has no free slot while the campaign runs,
    and has one again once the campaign is paused. *)
Definition throttled_world : Sim.sim :=
  Sim.Sim [PyStr "unavailable"; PyStr "available"]
    [Sim.status "STARTED" 0 2; Sim.status "PAUSED" 0 2] Sim.study [].

(** The locals of a run whose campaign dict would be empty, could the
    loop be reached with one. *)
Definition empty_locals : locals := Locals ∅ (PyInt 420) (PyStr "s1").


(** A world whose recruiter replies without the submission counters. *)
Definition no_counters : Sim.sim :=
  Sim.Sim [PyStr "available"] [list_to_map [("status", PyStr "STARTED")]]
    Sim.study [].

(** A world whose recruiter replies without the campaign status, while
    the host has finished and a submission is outstanding. *)
Definition no_status : Sim.sim :=
  Sim.Sim [PyStr "finished"]
    [list_to_map [("number_of_submissions", PyInt 1);
                  ("total_available_places", PyInt 2)]]
    Sim.study [].

(** A world whose recruiter creates a campaign without telling its id. *)
Definition no_id : Sim.sim :=
  Sim.Sim [PyStr "available"] [Sim.status "UNPUBLISHED" 0 2]
    (list_to_map [("maximum_allowed_time", PyInt 7)]) [].

(** A configuration for the combined runner without ["sleep_time"]. *)
Definition no_sleep_time : pydict := delete "sleep_time" Sim.kwargs.

(** A world in which the host has a free slot and the recruiter
    replies that the campaign is unpublished, without the submission
    counters. *)
Definition uncounted : Sim.sim :=
  Sim.Sim [PyStr "available"] [list_to_map [("status", PyStr "UNPUBLISHED")]]
    Sim.study [].
End Demo.

(** ** The keys of the configuration *)

(** The keys [_firebase_run] looks up in [kwargs], in the order of
    lines 27-29. *)
Definition host_keys : list string :=
  ["firebase_credentials"; "time_out"; "sleep_time"].

(** The keys the call of [setup_study] looks up, in the order of lines
    62-68. *)
Definition study_keys : list string :=
  ["study_name"; "study_description"; "study_url"; "study_completion_time";
   "prolific_token"; "completion_code"].

(** The keys [_firebase_prolific_run] looks up. *)
Definition combined_keys : list string :=
  "firebase_credentials" :: study_keys ++ ["sleep_time"].

(** The first of [keys] that [kwargs] does not have. *)
Fixpoint first_missing (kwargs : pydict) (keys : list string) : option string :=
  match keys with
  | [] => None
  | key :: rest =>
      match kwargs !! key with
      | Some _ => first_missing kwargs rest
      | None => Some key
      end
  end.

(** Two configurations with the same value, or none, at each of [keys]. *)
Definition agree_on (keys : list string) (kwargs kwargs' : pydict) : Prop :=
  Forall (λ key, kwargs !! key = kwargs' !! key) keys.

(** ** Failures of the collaborators *)

(** The message a reply failed with. *)
Definition failed {A} (r : reply A) : option string :=
  match r with
  | Done _ => None
  | Failed msg => Some msg
  end.

(** The message the call of an event failed with, if it failed. *)
Definition failure (e : event) : option string :=
  match e with
  | SendConditions _ _ _ r => failed r
  | CheckFirebaseStatus _ _ _ r => failed r
  | GetObservations _ _ r => failed r
  | SetupStudy _ _ _ _ _ _ _ r => failed r
  | CheckProlificStatus _ _ r => failed r
  | PublishStudy _ _ r => failed r
  | StartStudy _ _ r => failed r
  | PauseStudy _ _ r => failed r
  | Sleep _ r => failed r
  end.

(** An exception of the runner's own statements. *)
Definition own (e : exn) : Prop := ∀ msg, e ≠ CollaboratorError msg.

(** What a computation leaves behind when it stops at the first call
    that fails: either no call failed, and it does not end with the
    failure of a collaborator, or the last call failed and it ends with
    that failure. *)
Definition fails_fast {W A} (o : out W A) : Prop :=
  (Forall (λ e, failure e = None) (events o) ∧
   ∀ msg, res o ≠ Raise (CollaboratorError msg)) ∨
  (∃ pre e msg,
     events o = pre ++ [e] ∧ Forall (λ e, failure e = None) pre ∧
     failure e = Some msg ∧ res o = Raise (CollaboratorError msg)).

(** ** The arguments of the calls *)

(** The arguments an event of the combined runner passes are those of
    the configuration. *)
Definition configured (kwargs : pydict) (e : event) : Prop :=
  match e with
  | SendConditions _ _ creds _ | CheckFirebaseStatus _ creds _ _
  | GetObservations _ creds _ =>
      kwargs !! "firebase_credentials" = Some creds
  | SetupStudy name desc url ct tok _ code _ =>
      kwargs !! "study_name" = Some name ∧
      kwargs !! "study_description" = Some desc ∧
      kwargs !! "study_url" = Some url ∧
      kwargs !! "study_completion_time" = Some ct ∧
      kwargs !! "prolific_token" = Some tok ∧
      kwargs !! "completion_code" = Some code
  | CheckProlificStatus _ tok _ | PublishStudy _ tok _ | StartStudy _ tok _
  | PauseStudy _ tok _ =>
      kwargs !! "prolific_token" = Some tok
  | Sleep secs _ => kwargs !! "sleep_time" = Some secs
  end.

(** The arguments an event of the host-only runner passes are those of
    the configuration; it is no call to the recruiter. *)
Definition host_configured (kwargs : pydict) (e : event) : Prop :=
  match e with
  | SendConditions _ _ creds _ | GetObservations _ creds _ =>
      kwargs !! "firebase_credentials" = Some creds
  | CheckFirebaseStatus _ creds tm _ =>
      kwargs !! "firebase_credentials" = Some creds ∧
      kwargs !! "time_out" = Some tm
  | Sleep secs _ => kwargs !! "sleep_time" = Some secs
  | _ => False
  end.

(** The study a call to the recruiter is about, when it names one. *)
Definition study_of (e : event) : option pyval :=
  match e with
  | CheckProlificStatus sid _ _ | PublishStudy sid _ _ | StartStudy sid _ _
  | PauseStudy sid _ _ => Some sid
  | _ => None
  end.

(** ** The rhythm of the loop *)

(** The number of events of a kind. *)
Fixpoint count (f : event → bool) (evs : list event) : nat :=
  match evs with
  | [] => O
  | e :: rest => ((if f e then 1 else 0) + count f rest)%nat
  end.

Definition is_host_poll (e : event) : bool :=
  match e with CheckFirebaseStatus _ _ _ _ => true | _ => false end.

Definition is_recruiter_poll (e : event) : bool :=
  match e with CheckProlificStatus _ _ _ => true | _ => false end.

Definition is_sleep (e : event) : bool :=
  match e with Sleep _ _ => true | _ => false end.

(** The events of a whole tick: one poll of the host, one of the
    recruiter when [recruiter] is set, one sleep. *)
Definition whole_tick (recruiter : bool) (t : list event) : Prop :=
  count is_host_poll t = 1%nat ∧
  count is_recruiter_poll t = (if recruiter then 1 else 0)%nat ∧
  count is_sleep t = 1%nat.

(** The events of a tick that was cut short: at most one poll of the
    host, the recruiter polled only after the host, a sleep only after
    the polls. *)
Definition cut_tick (recruiter : bool) (t : list event) : Prop :=
  (count is_host_poll t ≤ 1)%nat ∧
  (count is_recruiter_poll t ≤ if recruiter then count is_host_poll t else 0)%nat ∧
  (count is_sleep t ≤
   if recruiter then count is_recruiter_poll t else count is_host_poll t)%nat.

(** The polls and the sleeps of some events alternate: the sleeps are at
    most as many as the polls that come before a sleep, and the polls of
    the host at most one more than the sleeps. *)
Definition rhythm (recruiter : bool) (evs : list event) : Prop :=
  (count is_sleep evs ≤
   if recruiter then count is_recruiter_poll evs else count is_host_poll evs)%nat ∧
  (count is_recruiter_poll evs ≤
   if recruiter then count is_host_poll evs else 0)%nat ∧
  (count is_host_poll evs ≤ S (count is_sleep evs))%nat.

(** ** The reply to the campaign creation *)

(** Lines 72-73: what the run keeps of the reply to [setup_study]. *)
Definition campaign_locals (prolific_dict : pydict) : outcome locals :=
  match dict_getitem prolific_dict "maximum_allowed_time" with
  | Ok maximum_allowed_time =>
      match py_mul maximum_allowed_time (PyInt 60) with
      | Ok time_out =>
          match dict_getitem prolific_dict "id" with
          | Ok study_id => Ok (Locals prolific_dict time_out study_id)
          | Err e => Err e
          end
      | Err e => Err e
      end
  | Err e => Err e
  end.

(** ** The first call *)

Definition is_send (e : event) : bool :=
  match e with SendConditions _ _ _ _ => true | _ => false end.

(** The events [evs], if there are any, open with the sending of
    [conditions], and nothing is sent after it. *)
Definition sent_first (conditions : list pyval) (evs : list event) : Prop :=
  match evs with
  | [] => True
  | e :: rest =>
      (∃ creds r, e = SendConditions "autora" conditions creds r) ∧
      Forall (λ e, is_send e = false) rest
  end.

(** ** The completion signal *)

(** What a run that fetches ends with, by the reply to the fetch. *)
Definition returned (r : reply pyodict) : result (list pyval) :=
  match r with
  | Done observation =>
      match observation_list observation with
      | Ok vs => Ret vs
      | Err e => Raise e
      end
  | Failed msg => Raise (CollaboratorError msg)
  end.

(** Events that open with the two status reads of a tick of the
    combined runner, on which completion holds. *)
Definition opens_complete (evs : list event) : Prop :=
  ∃ h cp, snapshot evs = Some (h, cp) ∧ completion h cp = Ok true.

(** Events that open with a status read of the host that reads
    finished. *)
Definition opens_finished (evs : list event) : Prop :=
  ∃ ns creds tm h rest,
    evs = CheckFirebaseStatus ns creds tm (Done h) :: rest ∧
    py_eq_str h "finished" = true.

(** Wherever the events [evs] of a run that ended with [r] show the
    signal - [signal] holds of the events from some point on, by the
    [n] status reads they open with - the fetch follows those reads at
    once, nothing follows the fetch, and the run ended with what the
    reply to the fetch gives. *)
Definition fetch_follows (signal : list event → Prop) (n : nat)
    (r : result (list pyval)) (evs : list event) : Prop :=
  ∀ pre suf,
    evs = pre ++ suf → signal suf →
    ∃ creds reply,
      drop n suf = [GetObservations "autora" creds reply] ∧
      r = returned reply.

(** What a loop asks of an iteration for [fetch_follows] to hold of
    it: the events of the iteration, if there are any, open with the
    only poll of the host among them; and when the signal shows where
    they begin, they are the [n] reads and the fetch, and the iteration
    ends with what the fetch gives. *)
Definition signalling {S} (signal : list event → Prop) (n : nat)
    (r : result (step S (list pyval))) (t : list event) : Prop :=
  (t = [] ∨
   ∃ e tail, t = e :: tail ∧ Forall (λ e, is_host_poll e = false) tail) ∧
  (∀ more,
     ((∀ s, r ≠ Ret (Continue s)) → more = []) →
     signal (t ++ more) →
     ∃ creds reply,
       drop n t = [GetObservations "autora" creds reply] ∧
       r = collected reply).

(** The events of a tick of the combined runner that fell through to
    the next one, call by call: the two status reads, on which
    completion did not hold, then calls that act on the campaign, then
    the sleep. *)
Definition sleeping_tick (t : list event) : Prop :=
  ∃ creds tm sid tok h cp acts secs,
    t = [CheckFirebaseStatus "autora" creds tm (Done h);
         CheckProlificStatus sid tok (Done cp)] ++
        acts ++ [Sleep secs (Done tt)] ∧
    completion h cp = Ok false ∧
    Forall (λ e, is_Some (recruiter_action e)) acts.

(** * Reasoning about computations *)

Section laws.
Context {W : Type} `{!Collab W}.
Local Open Scope run_scope.

Lemma prepend_nil {A} (o : out W A) : prepend [] o = o.
Proof. by destruct o. Qed.

Lemma prepend_prepend {A} (e1 e2 : list event) (o : out W A) :
  prepend e1 (prepend e2 o) = prepend (e1 ++ e2) o.
Proof. unfold prepend; simpl. by rewrite app_assoc. Qed.

Lemma bind_ret {A B} (a : A) (k : A → M W B) (w : W) :
  bind (ret a) k w = k a w.
Proof. unfold bind, ret. apply prepend_nil. Qed.

Lemma bind_raise {A B} (e : exn) (k : A → M W B) (w : W) :
  bind (raise e) k w = Out (Raise e) w [].
Proof. done. Qed.

Lemma bind_lift_Ok {A B} (o : outcome A) (a : A) (k : A → M W B) (w : W) :
  o = Ok a → bind (lift o) k w = k a w.
Proof. intros ->. apply bind_ret. Qed.

Lemma bind_lift_Err {A B} (o : outcome A) (e : exn) (k : A → M W B) (w : W) :
  o = Err e → bind (lift o) k w = Out (Raise e) w [].
Proof. by intros ->. Qed.

Lemma bind_getitem_Some {B} (d : pydict) (key : string) (v : pyval)
    (k : pyval → M W B) (w : W) :
  d !! key = Some v → bind (getitem d key) k w = k v w.
Proof.
  intros Hd. apply bind_lift_Ok. unfold dict_getitem. by rewrite Hd.
Qed.

Lemma bind_getitem_None {B} (d : pydict) (key : string)
    (k : pyval → M W B) (w : W) :
  d !! key = None →
  bind (getitem d key) k w = Out (Raise (KeyError key)) w [].
Proof.
  intros Hd. apply bind_lift_Err. unfold dict_getitem. by rewrite Hd.
Qed.

Lemma bind_call_Done {A B} (f : W → reply A * W) (log : reply A → event)
    (k : A → M W B) (w w' : W) (a : A) :
  f w = (Done a, w') →
  bind (call f log) k w = prepend [log (Done a)] (k a w').
Proof. intros Hf. unfold bind, call. by rewrite Hf. Qed.

Lemma bind_call_Failed {A B} (f : W → reply A * W) (log : reply A → event)
    (k : A → M W B) (w w' : W) (msg : string) :
  f w = (Failed msg, w') →
  bind (call f log) k w =
    Out (Raise (CollaboratorError msg)) w' [log (Failed msg)].
Proof. intros Hf. unfold bind, call. by rewrite Hf. Qed.

Lemma bind_assoc {A B C} (m : M W A) (k1 : A → M W B) (k2 : B → M W C)
    (w : W) :
  bind (bind m k1) k2 w = bind m (λ a, bind (k1 a) k2) w.
Proof.
  unfold bind. destruct (m w) as [[a|e|] w1 e1]; try done.
  destruct (k1 a w1) as [[b|e|] w2 e2]; simpl; try done.
  by rewrite prepend_prepend.
Qed.

(** The events and the result of a sequence. *)
Lemma events_bind {A B} (m : M W A) (k : A → M W B) (w : W) :
  events (bind m k w) =
    events (m w) ++
    match res (m w) with
    | Ret a => events (k a (world (m w)))
    | _ => []
    end.
Proof.
  unfold bind. destruct (m w) as [[a|e|] w1 e1]; simpl;
    by rewrite ?app_nil_r.
Qed.

Lemma res_bind {A B} (m : M W A) (k : A → M W B) (w : W) :
  res (bind m k w) =
    match res (m w) with
    | Ret a => res (k a (world (m w)))
    | Raise e => Raise e
    | OutOfFuel => OutOfFuel
    end.
Proof. unfold bind. by destruct (m w) as [[a|e|] w1 e1]. Qed.

(** ** Properties of every emitted event *)

Lemma emits_ret {A} P (a : A) : emits (W:=W) P (ret a).
Proof. intros w. constructor. Qed.

Lemma emits_raise {A} P (e : exn) : emits (W:=W) (A:=A) P (raise e).
Proof. intros w. constructor. Qed.

Lemma emits_lift {A} P (o : outcome A) : emits (W:=W) P (lift o).
Proof. destruct o; [apply emits_ret | apply emits_raise]. Qed.

Lemma emits_getitem P (d : pydict) (key : string) :
  emits (W:=W) P (getitem d key).
Proof. apply emits_lift. Qed.

Lemma emits_bind {A B} P (m : M W A) (k : A → M W B) :
  emits P m → (∀ a, emits P (k a)) → emits P (bind m k).
Proof.
  intros Hm Hk w. rewrite events_bind. apply Forall_app. split; [apply Hm|].
  destruct (res (m w)); [apply Hk | constructor | constructor].
Qed.

Lemma emits_call {A} (P : event → Prop) (f : W → reply A * W)
    (log : reply A → event) :
  (∀ r, P (log r)) → emits P (call f log).
Proof.
  intros Hlog w. unfold call.
  destruct (f w) as [[a|msg] w']; simpl; repeat constructor; apply Hlog.
Qed.

Lemma emits_when P (c : bool) (body : M W unit) :
  emits P body → emits P (when c body).
Proof. destruct c; [done | intros _; apply emits_ret]. Qed.

Lemma emits_while {S A} P (body : S → M W (step S A)) :
  (∀ s, emits P (body s)) → ∀ fuel s, emits P (while_true fuel body s).
Proof.
  intros Hbody fuel. induction fuel as [|fuel IH]; intros s; simpl.
  - intros w. constructor.
  - apply emits_bind; [apply Hbody|].
    intros [s'|a]; [apply IH | apply emits_ret].
Qed.

Lemma emits_impl {A} (P Q : event → Prop) (m : M W A) :
  (∀ e, P e → Q e) → emits P m → emits Q m.
Proof. intros HPQ Hm w. eapply Forall_impl; [apply Hm | done]. Qed.

End laws.

(** * The observation aggregation *)

Section aggregation.

Lemma sorted_Sorted (l : list string) : Sorted String.le (sorted l).
Proof. apply (Sorted_merge_sort String.le). Qed.

Lemma sorted_Permutation (l : list string) : sorted l ≡ₚ l.
Proof. apply (merge_sort_Permutation String.le). Qed.

(** The order on strings is a total order, so a list has one sorted
    arrangement. *)
Lemma sorted_permutation_invariant (l1 l2 : list string) :
  l1 ≡ₚ l2 → sorted l1 = sorted l2.
Proof.
  intros Hp. apply (Sorted_unique String.le); try apply sorted_Sorted.
  by rewrite !sorted_Permutation.
Qed.

Lemma assoc_Some_elem (key : string) (v : pyval) (observation : pyodict) :
  assoc key observation = Some v → (key, v) ∈ observation.
Proof.
  induction observation as [|[k x] rest IH]; simpl; [done|].
  case_decide as Hk.
  - intros [= ->]. subst. left.
  - intros Hrest. right. by apply IH.
Qed.

Lemma assoc_elem_Some (key : string) (v : pyval) (observation : pyodict) :
  NoDup (keys observation) →
  (key, v) ∈ observation → assoc key observation = Some v.
Proof.
  unfold keys. induction observation as [|[k x] rest IH]; simpl.
  - intros _ Hin. by apply elem_of_nil in Hin.
  - intros [Hk Hnd]%NoDup_cons [Heq|Hin]%elem_of_cons.
    + injection Heq as -> ->. by rewrite decide_True.
    + rewrite decide_False; [by apply IH|].
      intros ->. apply Hk. apply list_elem_of_fmap. by exists (key, v).
Qed.

Lemma assoc_is_Some (key : string) (observation : pyodict) :
  key ∈ keys observation → is_Some (assoc key observation).
Proof.
  unfold keys. induction observation as [|[k x] rest IH]; simpl.
  - intros Hin. by apply elem_of_nil in Hin.
  - intros [->|Hin]%elem_of_cons.
    + rewrite decide_True; eauto.
    + case_decide; eauto.
Qed.

Lemma assoc_permutation_invariant (key : string) (o1 o2 : pyodict) :
  NoDup (keys o1) → o1 ≡ₚ o2 → assoc key o1 = assoc key o2.
Proof.
  intros Hnd Hp.
  assert (NoDup (keys o2)) as Hnd2.
  { unfold keys in *. by rewrite <- Hp. }
  destruct (assoc key o1) as [v|] eqn:H1.
  - symmetry. apply assoc_elem_Some; [done|].
    rewrite <- Hp. by apply assoc_Some_elem.
  - destruct (assoc key o2) as [v|] eqn:H2; [|done].
    apply assoc_Some_elem in H2. rewrite <- Hp in H2.
    apply assoc_elem_Some in H2; [congruence | done].
Qed.

Lemma comprehension_Ok {A B} (f : A → outcome B) (l : list A) (ys : list B) :
  comprehension f l = Ok ys ↔ Forall2 (λ x y, f x = Ok y) l ys.
Proof.
  revert ys. induction l as [|x l IH]; intros ys; simpl.
  - split; [intros [= <-]; constructor | by intros ->%Forall2_nil_inv_l].
  - destruct (f x) as [y|e] eqn:Hx.
    + destruct (comprehension f l) as [ys'|e] eqn:Hl.
      * split.
        -- intros [= <-]. constructor; [done | by apply IH].
        -- intros (y' & ys'' & Hy & Hys & ->)%Forall2_cons_inv_l.
           apply IH in Hys. congruence.
      * split; [done|].
        intros (y' & ys'' & Hy & Hys & ->)%Forall2_cons_inv_l.
        apply IH in Hys. done.
    + split; [done|].
      intros (y' & ys'' & Hy & Hys & ->)%Forall2_cons_inv_l. congruence.
Qed.

Lemma comprehension_ext {A B} (f g : A → outcome B) (l : list A) :
  (∀ x, f x = g x) → comprehension f l = comprehension g l.
Proof.
  intros Hfg. induction l as [|x l IH]; simpl; [done|].
  by rewrite Hfg, IH.
Qed.

Lemma comprehension_total {A B} (f : A → outcome B) (l : list A) :
  Forall (λ x, ∃ y, f x = Ok y) l → ∃ ys, comprehension f l = Ok ys.
Proof.
  induction 1 as [|x l [y Hy] _ [ys Hys]]; simpl; [eauto|].
  rewrite Hy, Hys. eauto.
Qed.

(** The comprehension never raises: every key it looks up is a key of
    the mapping. *)
Lemma observation_list_total (observation : pyodict) :
  ∃ vs, observation_list observation = Ok vs.
Proof.
  apply comprehension_total, Forall_forall. intros key Hkey.
  rewrite sorted_Permutation in Hkey.
  destruct (assoc_is_Some _ _ Hkey) as [v Hv].
  exists v. unfold obs_getitem. by rewrite Hv.
Qed.

Lemma observation_list_length (observation : pyodict) (vs : list pyval) :
  observation_list observation = Ok vs → length vs = length observation.
Proof.
  intros Hvs%comprehension_Ok%Forall2_length.
  rewrite <- Hvs, sorted_Permutation. unfold keys. apply length_fmap.
Qed.

Lemma observation_list_permutation_invariant (o1 o2 : pyodict) :
  NoDup (keys o1) → o1 ≡ₚ o2 → observation_list o1 = observation_list o2.
Proof.
  intros Hnd Hp. unfold observation_list.
  rewrite (sorted_permutation_invariant (keys o1) (keys o2))
    by (unfold keys; by rewrite Hp).
  apply comprehension_ext. intros key. unfold obs_getitem.
  by rewrite (assoc_permutation_invariant key o1 o2).
Qed.

(** Pairing the keys of a well-formed mapping with what they are
    bound to gives the mapping back. *)
Lemma zip_keys_values (observation : pyodict) (ks : list string)
    (vs : list pyval) :
  NoDup (keys observation) →
  ks ≡ₚ keys observation →
  Forall2 (λ k v, obs_getitem observation k = Ok v) ks vs →
  zip ks vs ≡ₚ observation.
Proof.
  intros Hnd Hp Hvs.
  assert (zip ks vs = (λ k, (k, default PyNone (assoc k observation))) <$> ks)
    as ->.
  { clear Hp. induction Hvs as [|k v ks vs Hkv _ IH]; simpl; [done|].
    unfold obs_getitem in Hkv.
    destruct (assoc k observation); simplify_eq. simpl. by rewrite IH. }
  rewrite Hp. unfold keys. rewrite <- list_fmap_compose.
  rewrite <- (list_fmap_id observation) at 2.
  apply reflexive_eq, Forall_fmap_ext, Forall_forall.
  intros [k v] Hin. simpl. by rewrite (assoc_elem_Some k v).
Qed.

(** The values come in the ascending order of their keys. *)
Lemma observation_list_sorted (observation : pyodict) (vs : list pyval) :
  observation_list observation = Ok vs →
  ∃ ks,
    Sorted String.le ks ∧ ks ≡ₚ keys observation ∧
    Forall2 (λ k v, (k, v) ∈ observation) ks vs.
Proof.
  intros Hvs%comprehension_Ok. exists (sorted (keys observation)).
  split_and!; [apply sorted_Sorted | apply sorted_Permutation |].
  eapply Forall2_impl; [apply Hvs|]. intros k v Hkv. simpl in Hkv.
  unfold obs_getitem in Hkv. apply assoc_Some_elem.
  destruct (assoc k observation); by simplify_eq.
Qed.

End aggregation.

(** * The operators *)

Section operators.
Context {W : Type} `{!Collab W}.
Local Open Scope run_scope.

Lemma py_eq_str_true (v : pyval) (lit : string) :
  py_eq_str v lit = true ↔ v = PyStr lit.
Proof.
  destruct v; simpl; try (split; [done | congruence]).
  rewrite bool_decide_eq_true. split; congruence.
Qed.

Lemma py_eq_str_other (v : pyval) (lit lit' : string) :
  py_eq_str v lit = true → lit ≠ lit' → py_eq_str v lit' = false.
Proof.
  intros ->%py_eq_str_true Hne. simpl. by apply bool_decide_eq_false.
Qed.

Lemma call_Done {A} (f : W → reply A * W) (log : reply A → event)
    (w w' : W) (a : A) :
  f w = (Done a, w') → call f log w = Out (Ret a) w' [log (Done a)].
Proof. intros Hf. unfold call. by rewrite Hf. Qed.

Lemma call_Failed {A} (f : W → reply A * W) (log : reply A → event)
    (w w' : W) (msg : string) :
  f w = (Failed msg, w') →
  call f log w = Out (Raise (CollaboratorError msg)) w' [log (Failed msg)].
Proof. intros Hf. unfold call. by rewrite Hf. Qed.

Lemma when_pass (c : bool) : when (W:=W) c (ret tt) = ret tt.
Proof. by destruct c. Qed.

Lemma when_true (body : M W unit) : when true body = body.
Proof. done. Qed.

Lemma when_false (body : M W unit) : when false body = ret tt.
Proof. done. Qed.

End operators.

(** Checks a property of events on each event of an explicit list. *)
Ltac each_event :=
  repeat first
    [ eassumption
    | by apply Forall_nil
    | apply Forall_cons; split; [simpl; tauto|] ].

(** Runs the computation in the goal one operation at a time, with the
    lookups and the collaborators' replies taken from the hypotheses. *)
Ltac exec :=
  repeat first
    [ rewrite bind_assoc
    | rewrite bind_ret
    | rewrite bind_raise
    | rewrite when_true
    | rewrite when_false
    | match goal with
      | H : py_eq_str ?v ?lit = _ |- context [py_eq_str ?v ?lit] => rewrite H
      end
    | erewrite bind_getitem_Some by eassumption
    | erewrite bind_getitem_None by eassumption
    | erewrite bind_lift_Ok by (eassumption || reflexivity)
    | erewrite bind_lift_Err by (eassumption || reflexivity)
    | erewrite bind_call_Done by eassumption
    | erewrite bind_call_Failed by eassumption
    | erewrite call_Done by eassumption
    | erewrite call_Failed by eassumption
    | progress cbv beta match ].

(** * The reconciliation *)

Section reconcile_facts.
Context {W : Type} `{!Collab W}.
Local Open Scope run_scope.

(** The host status is one of the three the loop tests, or another. *)
Lemma host_cases (h : pyval) :
  (py_eq_str h "available" = true ∧ py_eq_str h "unavailable" = false) ∨
  (py_eq_str h "available" = false ∧ py_eq_str h "unavailable" = true) ∨
  (py_eq_str h "available" = false ∧ py_eq_str h "unavailable" = false).
Proof.
  destruct (py_eq_str h "available") eqn:Ha;
    destruct (py_eq_str h "unavailable") eqn:Hu; auto.
  by rewrite (py_eq_str_other h "available" "unavailable") in Hu.
Qed.

Lemma unpublished_paused (s : pyval) :
  py_eq_str s "UNPUBLISHED" = true → py_eq_str s "PAUSED" = false.
Proof. intros Hs. by apply (py_eq_str_other s "UNPUBLISHED"). Qed.

Lemma reconcile_actions (kwargs : pydict) (l : locals) (h : pyval)
    (cp : pydict) (tok : pyval) (w : W) :
  kwargs !! "prolific_token" = Some tok →
  recruiter_actions (events (reconcile kwargs l h (Some cp) w)) =
    match cp !! "status" with
    | Some s => option_list (precedence_table h s)
    | None => []
    end.
Proof.
  intros Htok. unfold reconcile, prolific_status, local.
  unfold publish_study, start_study, pause_study.
  rewrite when_pass. unfold precedence_table; simpl.
  destruct (host_cases h) as [[Ha Hu]|[[Ha Hu]|[Ha Hu]]]; rewrite Ha, Hu;
    simpl; exec.
  - destruct (cp !! "status") as [s|] eqn:Hs; exec; [|done].
    destruct (py_eq_str s "UNPUBLISHED") eqn:Hun.
    + pose proof (unpublished_paused s Hun) as Hpa.
      destruct (ext_publish_study (study_id l) tok w) as [[[]|msg] w'] eqn:Hp;
        exec; done.
    + destruct (py_eq_str s "PAUSED") eqn:Hpa; exec; [|done].
      destruct (ext_start_study (study_id l) tok w) as [[[]|msg] w'] eqn:Hp;
        exec; done.
  - destruct (cp !! "status") as [s|] eqn:Hs; exec; [|done].
    destruct (py_eq_str s "STARTED") eqn:Hst; exec; [|done].
    destruct (ext_pause_study (study_id l) tok w) as [[[]|msg] w'] eqn:Hp;
      exec; done.
  - by destruct (cp !! "status").
Qed.
End reconcile_facts.

(** * Postconditions and loops *)

Section hoare.
Context {W : Type} `{!Collab W}.
Local Open Scope run_scope.

Lemma post_ret {A} (Q : A → Prop) E T (a : A) :
  Q a → post (W:=W) Q E T (ret a).
Proof. intros Ha w. done. Qed.

Lemma post_raise {A} (Q : A → Prop) (E : exn → Prop) T (e : exn) :
  E e → post (W:=W) Q E T (raise e).
Proof. intros He w. done. Qed.

Lemma post_lift {A} (Q : A → Prop) (E : exn → Prop) T (o : outcome A) :
  (∀ a, o = Ok a → Q a) → (∀ e, o = Err e → E e) →
  post (W:=W) Q E T (lift o).
Proof.
  intros HQ HE. destruct o; [apply post_ret | apply post_raise]; auto.
Qed.

Lemma post_getitem (Q : pyval → Prop) (E : exn → Prop) T (d : pydict)
    (key : string) :
  (∀ v, d !! key = Some v → Q v) → E (KeyError key) →
  post (W:=W) Q E T (getitem d key).
Proof.
  intros HQ HE. apply post_lift; unfold dict_getitem;
    destruct (d !! key); naive_solver.
Qed.

Lemma post_call {A} (Q : A → Prop) (E : exn → Prop) T
    (f : W → reply A * W) (log : reply A → event) :
  (∀ a, Q a) → (∀ msg, E (CollaboratorError msg)) → post Q E T (call f log).
Proof.
  intros HQ HE w. unfold call. destruct (f w) as [[a|msg] w']; simpl; auto.
Qed.

Lemma post_bind {A B} (Q1 : A → Prop) (Q2 : B → Prop) (E : exn → Prop) T
    (m : M W A) (k : A → M W B) :
  post Q1 E T m → (∀ a, Q1 a → post Q2 E T (k a)) → post Q2 E T (bind m k).
Proof.
  intros Hm Hk w. rewrite res_bind. specialize (Hm w).
  destruct (res (m w)); [by apply Hk | done | done].
Qed.

Lemma post_when (Q : unit → Prop) (E : exn → Prop) T (c : bool)
    (body : M W unit) :
  Q tt → post Q E T body → post Q E T (when c body).
Proof. intros HQ Hbody. destruct c; [done | by apply post_ret]. Qed.

Lemma post_while {S A} (I : S → Prop) (Q : A → Prop) (E : exn → Prop)
    (body : S → M W (step S A)) :
  (∀ s, I s →
     post (λ x, match x with Continue s' => I s' | Return a => Q a end) E
       True (body s)) →
  ∀ fuel s, I s → post Q E True (while_true fuel body s).
Proof.
  intros Hbody fuel. induction fuel as [|fuel IH]; intros s Hs; simpl.
  - intros w. done.
  - eapply post_bind; [by apply Hbody|].
    intros [s'|a] Hx; [by apply IH | by apply post_ret].
Qed.

(** ** The iterations of a loop *)

(** The events of a loop are those of the iterations that fell
    through, in order, and then those of the iteration that ended it,
    if the fuel sufficed for one. *)
Lemma while_true_ticks {S A} (I : S → Prop) (C : list event → Prop)
    (F : result A → list event → Prop) (body : S → M W (step S A)) :
  F OutOfFuel [] →
  (∀ s w, I s →
     match res (body s w) with
     | Ret (Continue s') => I s' ∧ C (events (body s w))
     | Ret (Return a) => F (Ret a) (events (body s w))
     | Raise e => F (Raise e) (events (body s w))
     | OutOfFuel => F OutOfFuel (events (body s w))
     end) →
  ∀ fuel s w, I s →
    ∃ ticks final,
      events (while_true fuel body s w) = concat ticks ++ final ∧
      Forall C ticks ∧
      F (res (while_true fuel body s w)) final.
Proof.
  intros Hout Hbody fuel. induction fuel as [|fuel IH]; intros s w Hs; simpl.
  - exists [], []. done.
  - rewrite events_bind, res_bind. specialize (Hbody s w Hs).
    destruct (res (body s w)) as [[s'|a]|e|] eqn:Hr.
    + destruct Hbody as [Hs' HC].
      destruct (IH s' (world (body s w)) Hs') as (ticks & final & -> & Ht & Hf).
      exists (events (body s w) :: ticks), final. simpl.
      rewrite app_assoc. split_and!; [done | by constructor | done].
    + exists [], (events (body s w)). simpl. by rewrite app_nil_r.
    + exists [], (events (body s w)). simpl. by rewrite app_nil_r.
    + exists [], (events (body s w)). simpl. by rewrite app_nil_r.
Qed.

End hoare.

(** * One tick of the combined runner *)

Section tick_facts.
Context {W : Type} `{!Collab W}.
Local Open Scope run_scope.

Lemma collect_spec {S} (creds : pyval) (w : W) :
  ∃ r,
    events (collect (S:=S) creds w) = [GetObservations "autora" creds r] ∧
    res (collect (S:=S) creds w) = collected r.
Proof.
  unfold collect, get_observations.
  destruct (ext_get_observations "autora" creds w) as [[obs|msg] w'] eqn:Hf;
    exec; [|by eexists (Failed msg)].
  exists (Done obs). simpl.
  destruct (observation_list obs) as [vs|e] eqn:Hvs; by exec.
Qed.

Lemma reconcile_emits (kwargs : pydict) (l : locals) (h : pyval)
    (cp : option pydict) :
  emits (λ e, is_Some (recruiter_action e)) (reconcile kwargs l h cp).
Proof.
  unfold reconcile, prolific_status, publish_study, start_study, pause_study.
  repeat first
    [ apply emits_ret | apply emits_getitem | apply emits_when
    | apply emits_call; intros; simpl; eauto
    | apply emits_bind; [|intros]
    | destruct cp; [apply emits_ret | apply emits_raise] ].
Qed.

Lemma carry_on_emits (kwargs : pydict) (l : locals) (h : pyval)
    (cp : option pydict) :
  emits (λ e, ¬ is_fetch e ∧ ¬ is_poll e) (carry_on kwargs l h cp).
Proof.
  assert (emits (λ e, ¬ is_fetch e ∧ ¬ is_poll e) (reconcile kwargs l h cp))
    as Hrec.
  { eapply emits_impl; [|apply reconcile_emits].
    intros [] [? [=]]; simpl; tauto. }
  unfold carry_on, sleep.
  repeat first
    [ apply Hrec | apply emits_ret | apply emits_getitem
    | apply emits_call; intros; simpl; tauto
    | apply emits_bind; [|intros] ].
Qed.

Lemma carry_on_post (kwargs : pydict) (l : locals) (h : pyval) (cp : pydict) :
  post (λ x, x = Continue (Some cp)) bound False
    (carry_on kwargs l h (Some cp)).
Proof.
  unfold carry_on, reconcile, prolific_status, local, publish_study,
    start_study, pause_study, sleep.
  repeat first
    [ apply post_ret; done
    | apply post_getitem; [intros|done]
    | apply post_when; [done|]
    | apply post_call; [done|done]
    | eapply (post_bind (λ _, True)); [|intros ? _] ].
  all: done.
Qed.

(** A tick that opens with the two status reads got them this way. *)
Lemma tick_snapshot_inv (kwargs : pydict) (l : locals)
    (cp0 : option pydict) (w : W) (h : pyval) (cp : pydict) :
  snapshot (events (tick kwargs l cp0 w)) = Some (h, cp) →
  ∃ creds tok w1 w2,
    kwargs !! "firebase_credentials" = Some creds ∧
    kwargs !! "prolific_token" = Some tok ∧
    dict_truthy (prolific_dict l) = true ∧
    ext_check_firebase_status "autora" creds (time_out l) w = (Done h, w1) ∧
    ext_check_prolific_status (study_id l) tok w1 = (Done cp, w2).
Proof.
  unfold tick, check_firebase_status, poll_prolific, check_prolific_status.
  destruct (kwargs !! "firebase_credentials") as [creds|] eqn:Hcreds; exec;
    [|done].
  destruct (ext_check_firebase_status "autora" creds (time_out l) w)
    as [[h'|msg] w1] eqn:Hh; exec; [|done].
  destruct (dict_truthy (prolific_dict l)) eqn:Htruthy; exec.
  - destruct (kwargs !! "prolific_token") as [tok|] eqn:Htok; exec; [|done].
    destruct (ext_check_prolific_status (study_id l) tok w1)
      as [[cp'|msg] w2] eqn:Hcp; exec; [|done].
    rewrite prepend_prepend. simpl. intros [= -> ->].
    by exists creds, tok, w1, w2.
  - simpl. pose proof (carry_on_emits kwargs l h' cp0 w1) as Hem.
    destruct (events (carry_on kwargs l h' cp0 w1)) as [|e evs]; [done|].
    apply Forall_cons in Hem as [[_ He] _].
    destruct e; simpl in *; done.
Qed.

Lemma tick_after_snapshot (kwargs : pydict) (l : locals)
    (cp0 : option pydict) (w w1 w2 : W) (creds tok h : pyval) (cp : pydict) :
  kwargs !! "firebase_credentials" = Some creds →
  kwargs !! "prolific_token" = Some tok →
  dict_truthy (prolific_dict l) = true →
  ext_check_firebase_status "autora" creds (time_out l) w = (Done h, w1) →
  ext_check_prolific_status (study_id l) tok w1 = (Done cp, w2) →
  tick kwargs l cp0 w =
    prepend [CheckFirebaseStatus "autora" creds (time_out l) (Done h);
             CheckProlificStatus (study_id l) tok (Done cp)]
      match completion h cp with
      | Ok true => collect creds w2
      | Ok false => carry_on kwargs l h (Some cp) w2
      | Err e => Out (Raise e) w2 []
      end.
Proof.
  intros Hcreds Htok Htruthy Hh Hcp.
  unfold tick, check_firebase_status, poll_prolific, check_prolific_status.
  rewrite Htruthy. exec. rewrite prepend_prepend. simpl. f_equal.
  destruct (completion h cp) as [[]|e] eqn:Hc; exec; [|done|done].
  unfold collect.
  unfold get_observations.
  destruct (ext_get_observations "autora" creds w2) as [[obs|msg] w3] eqn:Hf;
    exec; [|done].
  destruct (observation_list obs) as [vs|e] eqn:Hvs; by exec.
Qed.

Lemma completion_Err_bound (h : pyval) (cp : pydict) (e : exn) :
  completion h cp = Err e → bound e.
Proof.
  unfold completion, dict_getitem, py_ge. intros He name.
  repeat case_match; simplify_eq; done.
Qed.

(** A tick of a run whose campaign dict is non-empty falls through to
    the next one, or fetches, or raises before it would fetch. *)
Lemma tick_classify (kwargs : pydict) (l : locals) (cp0 : option pydict)
    (w : W) :
  dict_truthy (prolific_dict l) = true →
  (∃ h cp,
     snapshot (events (tick kwargs l cp0 w)) = Some (h, cp) ∧
     completion h cp = Ok false ∧
     res (tick kwargs l cp0 w) = Ret (Continue (Some cp)) ∧
     Forall (λ e, ¬ is_fetch e) (events (tick kwargs l cp0 w))) ∨
  (∃ creds tok h cp r,
     events (tick kwargs l cp0 w) =
       [CheckFirebaseStatus "autora" creds (time_out l) (Done h);
        CheckProlificStatus (study_id l) tok (Done cp);
        GetObservations "autora" creds r] ∧
     completion h cp = Ok true ∧
     res (tick kwargs l cp0 w) = collected r) ∨
  (∃ e,
     res (tick kwargs l cp0 w) = Raise e ∧ bound e ∧
     Forall (λ e, ¬ is_fetch e) (events (tick kwargs l cp0 w)) ∧
     ∀ h cp, snapshot (events (tick kwargs l cp0 w)) = Some (h, cp) →
             completion h cp ≠ Ok true).
Proof.
  intros Htruthy.
  destruct (kwargs !! "firebase_credentials") as [creds|] eqn:Hcreds.
  2:{ right; right. exists (KeyError "firebase_credentials").
      unfold tick. exec. simpl. done. }
  destruct (ext_check_firebase_status "autora" creds (time_out l) w)
    as [[h|msg] w1] eqn:Hh.
  2:{ right; right. exists (CollaboratorError msg).
      unfold tick, check_firebase_status. exec. simpl.
      split_and!; [done | done | each_event | done]. }
  destruct (kwargs !! "prolific_token") as [tok|] eqn:Htok.
  2:{ right; right. exists (KeyError "prolific_token").
      unfold tick, check_firebase_status, poll_prolific. rewrite Htruthy.
      exec. simpl.
      split_and!; [done | done | each_event | done]. }
  destruct (ext_check_prolific_status (study_id l) tok w1)
    as [[cp|msg] w2] eqn:Hcp.
  2:{ right; right. exists (CollaboratorError msg).
      unfold tick, check_firebase_status, poll_prolific,
        check_prolific_status. rewrite Htruthy.
      exec. simpl.
      split_and!; [done | done | each_event | done]. }
  rewrite (tick_after_snapshot kwargs l cp0 w w1 w2 creds tok h cp) by done.
  destruct (completion h cp) as [[]|e] eqn:Hc.
  - right; left. exists creds, tok, h, cp.
    destruct (collect_spec (S:=option pydict) creds w2) as (r & Hev & Hres).
    exists r. simpl. rewrite Hev. done.
  - pose proof (carry_on_post kwargs l h cp w2) as Hpost.
    pose proof (carry_on_emits kwargs l h (Some cp) w2) as Hem.
    assert (Forall (λ e, ¬ is_fetch e)
              (events (carry_on kwargs l h (Some cp) w2))) as Hnf.
    { eapply Forall_impl; [apply Hem|]. simpl. tauto. }
    simpl. destruct (res (carry_on kwargs l h (Some cp) w2)) as [x|e|] eqn:Hr;
      [subst x | | done].
    + left. exists h, cp.
      split_and!; [done | done | done | each_event].
    + right; right. exists e.
      split_and!; [done | done | each_event |].
      intros ? ? [= <- <-]. congruence.
  - right; right. exists e. simpl.
    split_and!; [done | by eapply completion_Err_bound
                | each_event |].
    intros ? ? [= <- <-]. congruence.
Qed.
End tick_facts.

(** Runs the computation in the goal, with a case for each way a lookup,
    a collaborator or an operator can come back. *)
Ltac exec_cases :=
  repeat first
    [ progress exec
    | match goal with
      | |- context [bind (getitem ?d ?k) _ _] =>
          let H := fresh "Hk" in destruct (d !! k) eqn:H
      | |- context [bind (call ?f _) _ ?w] =>
          let H := fresh "Hf" in destruct (f w) as [[?|?] ?] eqn:H
      | |- context [bind (lift ?o) _ _] =>
          let H := fresh "Ho" in destruct o eqn:H
      end ].

(** * The runs of the combined runner *)

Section combined_run.
Context {W : Type} `{!Collab W}.
Local Open Scope run_scope.

Lemma setup_emits (conditions : list pyval) (kwargs : pydict) :
  emits (setup_event conditions) (setup conditions kwargs).
Proof.
  unfold setup, send_conditions, setup_study.
  repeat first
    [ apply emits_ret | apply emits_getitem | apply emits_lift
    | apply emits_call; intros; simpl; done
    | apply emits_bind; [|intros] ].
Qed.

Lemma reconcile_emits_tick (kwargs : pydict) (l : locals) (h : pyval)
    (cp : option pydict) :
  emits (tick_event l) (reconcile kwargs l h cp).
Proof.
  unfold reconcile, prolific_status, publish_study, start_study, pause_study.
  repeat first
    [ apply emits_ret | apply emits_getitem | apply emits_when
    | apply emits_call; intros; simpl; done
    | apply emits_bind; [|intros]
    | destruct cp; [apply emits_ret | apply emits_raise] ].
Qed.

Lemma tick_emits (kwargs : pydict) (l : locals) (cp0 : option pydict) :
  emits (tick_event l) (tick kwargs l cp0).
Proof.
  pose proof (reconcile_emits_tick kwargs l) as Hrec.
  unfold tick, poll_prolific, carry_on, collect, check_firebase_status,
    check_prolific_status, get_observations, sleep.
  repeat first
    [ apply Hrec | apply emits_ret | apply emits_getitem | apply emits_lift
    | apply emits_call; intros; simpl; done
    | apply emits_bind; [|intros]
    | match goal with
      | |- emits _ (if ?c then _ else _) => destruct c
      | |- emits _ (match ?x with Continue _ => _ | Return _ => _ end) =>
          destruct x
      end ].
Qed.

(** What a successful setup leaves behind. *)
Lemma setup_Ret (conditions : list pyval) (kwargs : pydict) (w : W)
    (l : locals) :
  res (setup conditions kwargs w) = Ret l →
  ∃ creds name desc url ct tok code mat,
    events (setup conditions kwargs w) =
      [SendConditions "autora" conditions creds (Done tt);
       SetupStudy name desc url ct tok
         (PyInt (Z.of_nat (length conditions))) code
         (Done (prolific_dict l))] ∧
    prolific_dict l !! "maximum_allowed_time" = Some mat ∧
    py_mul mat (PyInt 60) = Ok (time_out l) ∧
    prolific_dict l !! "id" = Some (study_id l).
Proof.
  unfold setup, send_conditions, setup_study.
  exec_cases; try done.
  simpl. intros [= <-]. simpl.
  match goal with u : unit |- _ => destruct u end.
  repeat eexists; eauto.
Qed.

Lemma setup_post (conditions : list pyval) (kwargs : pydict) :
  post (λ l, dict_truthy (prolific_dict l) = true) bound False
    (setup conditions kwargs).
Proof.
  intros w. destruct (res (setup conditions kwargs w)) as [l|e|] eqn:Hres.
  - apply setup_Ret in Hres as (? & ? & ? & ? & ? & ? & ? & mat & _ & Hm & _).
    unfold dict_truthy. apply bool_decide_eq_true. intros Hempty.
    rewrite Hempty in Hm. by rewrite lookup_empty in Hm.
  - revert Hres. unfold setup, send_conditions, setup_study.
    exec_cases; simpl; try done; intros [= <-]; try done.
    unfold py_mul in *. intros name. repeat case_match; simplify_eq; done.
  - revert Hres. unfold setup, send_conditions, setup_study.
    exec_cases; simpl; done.
Qed.

Lemma collected_cases {S} (r : reply pyodict) :
  match r with
  | Done observation =>
      ∃ vs, observation_list observation = Ok vs ∧
            collected (S:=S) r = Ret (Return vs)
  | Failed msg => collected (S:=S) r = Raise (CollaboratorError msg)
  end.
Proof.
  destruct r as [obs|msg]; [|done].
  destruct (observation_list_total obs) as [vs Hvs].
  exists vs. simpl. by rewrite Hvs.
Qed.

(** The events of a run of the combined runner: those of the setup,
    those of the ticks that fell through, those of the last tick. *)
Lemma combined_run_shape (fuel : nat) (conditions : list pyval)
    (kwargs : pydict) (w : W) :
  ∃ ticks final,
    events (_firebase_prolific_run fuel conditions kwargs w) =
      events (setup conditions kwargs w) ++ concat ticks ++ final ∧
    Forall continuing_tick ticks ∧
    final_tick (res (_firebase_prolific_run fuel conditions kwargs w)) final.
Proof.
  unfold _firebase_prolific_run. rewrite events_bind, res_bind.
  pose proof (setup_post conditions kwargs w) as Hsetup.
  destruct (res (setup conditions kwargs w)) as [l|e|]; [| |done].
  2:{ exists [], []. split_and!; [done | done |].
      left. split; [by constructor | done]. }
  destruct (while_true_ticks (λ _, True) continuing_tick final_tick
              (tick kwargs l)) with (fuel := fuel) (s := @None pydict)
    (w := world (setup conditions kwargs w))
    as (ticks & final & Hev & Hticks & Hfinal); [done | | done |].
  2:{ exists ticks, final. by rewrite Hev. }
  intros cp0 w' _.
  destruct (tick_classify kwargs l cp0 w' Hsetup)
    as [(h & cp & Hsnap & Hc & -> & Hnf)
       |[(creds & tok & h & cp & r & Hev & Hc & ->)|(e & -> & _ & Hnf & Hsn)]].
  - split; [done|]. by exists h, cp.
  - pose proof (collected_cases (S:=option pydict) r) as Hr. destruct r as [obs|msg].
    + destruct Hr as (vs & Hvs & ->). exists obs. split; [|done].
      rewrite Hev. by exists creds, (time_out l), (study_id l), tok, h, cp.
    + rewrite Hr. right. exists msg. split; [|done].
      rewrite Hev. by exists creds, (time_out l), (study_id l), tok, h, cp.
  - by left.
Qed.
End combined_run.

(** * The recruiter actions of a tick *)

Section action_facts.
Context {W : Type} `{!Collab W}.
Local Open Scope run_scope.


Lemma precedence_table_unfold (h s : pyval) :
  precedence_table h s =
    if py_eq_str h "available" then
      if py_eq_str s "UNPUBLISHED" then Some Publish
      else if py_eq_str s "PAUSED" then Some Start
      else None
    else if py_eq_str h "unavailable" then
      if py_eq_str s "STARTED" then Some Pause else None
    else None.
Proof.
  unfold precedence_table. simpl.
  destruct (host_cases h) as [[-> ->]|[[-> ->]|[-> ->]]]; simpl.
  - destruct (py_eq_str s "UNPUBLISHED"), (py_eq_str s "PAUSED"); done.
  - done.
  - done.
Qed.

(** Completion holds on a snapshot exactly when both conditions do. *)
Lemma completion_true (h : pyval) (cp : pydict) :
  completion h cp = Ok true ↔
  ∃ submissions places,
    cp !! "number_of_submissions" = Some submissions ∧
    cp !! "total_available_places" = Some places ∧
    py_ge submissions places = Ok true ∧
    h = PyStr "finished".
Proof.
  unfold completion, dict_getitem. split.
  - destruct (cp !! "number_of_submissions") as [a|]; [|done].
    destruct (cp !! "total_available_places") as [b|]; [|done].
    destruct (py_ge a b) as [[]|] eqn:Hge; simpl; [|done|done].
    destruct (py_eq_str h "finished") eqn:Hf; [|done].
    apply py_eq_str_true in Hf. intros _. by exists a, b.
  - intros (a & b & -> & -> & -> & ->). done.
Qed.

Lemma recruiter_actions_none (evs : list event) :
  Forall (λ e, recruiter_action e = None) evs → recruiter_actions evs = [].
Proof.
  unfold recruiter_actions. induction 1 as [|e evs He _ IH]; simpl; [done|].
  by rewrite He.
Qed.

Lemma carry_on_actions (kwargs : pydict) (l : locals) (h : pyval)
    (cp : pydict) (tok : pyval) (w : W) :
  kwargs !! "prolific_token" = Some tok →
  recruiter_actions (events (carry_on kwargs l h (Some cp) w)) =
    match cp !! "status" with
    | Some s => option_list (precedence_table h s)
    | None => []
    end.
Proof.
  intros Htok. unfold carry_on. rewrite events_bind.
  unfold recruiter_actions. rewrite omap_app.
  fold (recruiter_actions (events (reconcile kwargs l h (Some cp) w))).
  rewrite (reconcile_actions kwargs l h cp tok) by done.
  match goal with |- _ ++ ?rest = _ => assert (rest = []) as -> end;
    [|by rewrite app_nil_r].
  destruct (res (reconcile kwargs l h (Some cp) w)); [|done|done].
  apply recruiter_actions_none.
  generalize (world (reconcile kwargs l h (Some cp) w)).
  change (emits (λ e, recruiter_action e = None)
            (let* sleep_time := getitem kwargs "sleep_time" in
             sleep sleep_time ;;;
             ret (Continue (S:=option pydict) (A:=list pyval) (Some cp)))).
  unfold sleep.
  repeat first
    [ apply emits_ret | apply emits_getitem
    | apply emits_call; intros; simpl; done
    | apply emits_bind; [|intros] ].
Qed.

(** The recruiter actions of a tick whose snapshot could be judged. *)
Lemma tick_actions (kwargs : pydict) (l : locals) (cp0 : option pydict)
    (w : W) (h : pyval) (cp : pydict) (c : bool) :
  snapshot (events (tick kwargs l cp0 w)) = Some (h, cp) →
  completion h cp = Ok c →
  recruiter_actions (events (tick kwargs l cp0 w)) =
    match cp !! "status" with
    | Some s => option_list (precedence_table h s)
    | None => []
    end.
Proof.
  intros (creds & tok & w1 & w2 & Hcreds & Htok & Htruthy & Hh & Hcp)
    %tick_snapshot_inv Hc.
  rewrite (tick_after_snapshot kwargs l cp0 w w1 w2 creds tok h cp) by done.
  rewrite Hc. destruct c; simpl.
  - destruct (collect_spec (S:=option pydict) creds w2) as (r & -> & _).
    simpl. apply completion_true in Hc as (_ & _ & _ & _ & _ & ->).
    destruct (cp !! "status") as [s|]; [|done].
    by rewrite precedence_table_unfold.
  - by apply (carry_on_actions kwargs l h cp tok).
Qed.

End action_facts.

(** * Fuel *)

Section fuel.
Context {W : Type} `{!Collab W}.

(** More fuel does not change a loop that did not run out of it. *)
Lemma while_true_mono {S A} (body : S → M W (step S A)) (fuel fuel' : nat)
    (s : S) (w : W) :
  res (while_true fuel body s w) ≠ OutOfFuel → (fuel ≤ fuel')%nat →
  while_true fuel' body s w = while_true fuel body s w.
Proof.
  revert fuel' s w. induction fuel as [|fuel IH]; intros fuel' s w; [done|].
  destruct fuel' as [|fuel']; [lia|]. simpl. unfold bind.
  destruct (body s w) as [[[s'|a]|e|] w1 e1]; try done.
  intros Hres Hle. unfold prepend. simpl in *.
  by rewrite (IH fuel' s' w1) by (done || lia).
Qed.

Lemma _firebase_prolific_run_mono (fuel fuel' : nat) (conditions : list pyval)
    (kwargs : pydict) (w : W) :
  res (_firebase_prolific_run fuel conditions kwargs w) ≠ OutOfFuel →
  (fuel ≤ fuel')%nat →
  _firebase_prolific_run fuel' conditions kwargs w =
  _firebase_prolific_run fuel conditions kwargs w.
Proof.
  unfold _firebase_prolific_run, bind.
  destruct (setup conditions kwargs w) as [[l|e|] w1 e1]; try done.
  intros Hres Hle. unfold prepend in *. simpl in *.
  by rewrite (while_true_mono _ fuel fuel').
Qed.

Lemma _firebase_run_mono (fuel fuel' : nat) (conditions : list pyval)
    (kwargs : pydict) (w : W) :
  res (_firebase_run fuel conditions kwargs w) ≠ OutOfFuel →
  (fuel ≤ fuel')%nat →
  _firebase_run fuel' conditions kwargs w =
  _firebase_run fuel conditions kwargs w.
Proof.
  unfold _firebase_run, send_conditions.
  exec_cases; try done.
  intros Hres Hle. unfold prepend in *. simpl in *.
  by rewrite (while_true_mono _ fuel fuel').
Qed.

End fuel.

(** * The runs of the host-only runner *)

Section host_run.
Context {W : Type} `{!Collab W}.
Local Open Scope run_scope.

Lemma firebase_tick_emits (creds tm secs : pyval) (u : unit) :
  emits host_event (firebase_tick creds tm secs u).
Proof.
  unfold firebase_tick, collect, check_firebase_status, get_observations, sleep.
  repeat first
    [ apply emits_ret | apply emits_lift
    | apply emits_call; intros; split; simpl; [tauto | by intros ? [= <-]]
    | apply emits_bind; [|intros]
    | match goal with
      | |- emits _ (if ?c then _ else _) => destruct c
      end ].
Qed.

Lemma _firebase_run_emits (fuel : nat) (conditions : list pyval)
    (kwargs : pydict) :
  emits host_event (_firebase_run fuel conditions kwargs).
Proof.
  unfold _firebase_run, send_conditions.
  repeat first
    [ apply emits_getitem
    | apply emits_while; intros; apply firebase_tick_emits
    | apply emits_call; intros; split; simpl; [tauto | by intros ? [= <-]]
    | apply emits_bind; [|intros] ].
Qed.

Lemma firebase_tick_classify (creds tm secs : pyval) (u : unit) (w : W) :
  (host_continuing_tick (events (firebase_tick creds tm secs u w)) ∧
   res (firebase_tick creds tm secs u w) = Ret (Continue tt)) ∨
  (∃ r,
     host_completing_tick (events (firebase_tick creds tm secs u w)) r ∧
     res (firebase_tick creds tm secs u w) = collected r) ∨
  (∃ e,
     host_failing_tick (events (firebase_tick creds tm secs u w)) ∧
     res (firebase_tick creds tm secs u w) = Raise e).
Proof.
  unfold firebase_tick, check_firebase_status, sleep.
  destruct (ext_check_firebase_status "autora" creds tm w)
    as [[h|msg] w1] eqn:Hh; exec.
  2:{ right; right. exists (CollaboratorError msg). simpl.
      split; [|done]. split; [each_event | by intros; simplify_eq]. }
  destruct (py_eq_str h "finished") eqn:Hfin; exec.
  - right; left.
    destruct (collect_spec (S:=unit) creds w1) as (r & Hev & Hres).
    exists r. simpl. rewrite Hev, Hres. split; [|done]. by exists creds, tm, h.
  - destruct (ext_sleep secs w1) as [[[]|msg] w2] eqn:Hs; exec; simpl.
    + left. split; [|done]. by exists creds, tm, h, secs.
    + right; right. exists (CollaboratorError msg).
      split; [|done]. split; [each_event | by intros; simplify_eq].
Qed.

(** The events of a run of the host-only runner: those before the loop,
    those of the ticks that fell through, those of the last tick. *)
Lemma host_run_shape (fuel : nat) (conditions : list pyval) (kwargs : pydict)
    (w : W) :
  ∃ pre ticks final,
    events (_firebase_run fuel conditions kwargs w) =
      pre ++ concat ticks ++ final ∧
    Forall (λ e, ¬ is_fetch e ∧ ¬ is_poll e) pre ∧
    Forall host_continuing_tick ticks ∧
    host_final_tick (res (_firebase_run fuel conditions kwargs w)) final.
Proof.
  assert (∀ e : exn, host_final_tick (Raise e) []) as Hfail.
  { intros e. left. split; [by constructor | done]. }
  unfold _firebase_run, send_conditions.
  destruct (kwargs !! "firebase_credentials") as [creds|] eqn:Hcreds; exec.
  2:{ exists [], [], []. simpl. split_and!; [done | each_event | done | apply Hfail]. }
  destruct (kwargs !! "time_out") as [tm|] eqn:Htm; exec.
  2:{ exists [], [], []. simpl. split_and!; [done | each_event | done | apply Hfail]. }
  destruct (kwargs !! "sleep_time") as [secs|] eqn:Hsecs; exec.
  2:{ exists [], [], []. simpl.
      split_and!; [done | each_event | done | apply Hfail]. }
  destruct (ext_send_conditions "autora" conditions creds w)
    as [[[]|msg] w1] eqn:Hsend; exec.
  2:{ eexists [_], [], []. simpl.
      split_and!; [done | each_event | done | apply Hfail]. }
  destruct (while_true_ticks (λ _, True) host_continuing_tick host_final_tick
              (firebase_tick creds tm secs)) with (fuel := fuel) (s := tt)
    (w := w1) as (ticks & final & Hev & Hticks & Hfinal); [done | | done |].
  2:{ eexists [_], ticks, final. simpl. rewrite Hev.
      split_and!; [done | each_event | done | done]. }
  intros u w' _.
  destruct (firebase_tick_classify creds tm secs u w')
    as [[Ht ->]|[(r & Ht & ->)|(e & Ht & ->)]].
  - done.
  - pose proof (collected_cases (S:=unit) r) as Hr. destruct r as [obs|msg].
    + destruct Hr as (vs & Hvs & ->). by exists obs.
    + rewrite Hr. right. by exists msg.
  - by left.
Qed.

End host_run.

(** * The setup of the combined runner *)

Section setup_facts.
Context {W : Type} `{!Collab W}.
Local Open Scope run_scope.

Lemma post_impl {A} (Q Q' : A → Prop) (E E' : exn → Prop) (T T' : Prop)
    (m : M W A) :
  (∀ a, Q a → Q' a) → (∀ e, E e → E' e) → (T → T') →
  post Q E T m → post Q' E' T' m.
Proof.
  intros HQ HE HT Hm w. specialize (Hm w). destruct (res (m w)); auto.
Qed.

Lemma tick_post (kwargs : pydict) (l : locals) (cp0 : option pydict) :
  dict_truthy (prolific_dict l) = true →
  post (λ _, True) bound True (tick kwargs l cp0).
Proof.
  intros Htruthy w.
  destruct (tick_classify kwargs l cp0 w Htruthy)
    as [(h & cp & _ & _ & -> & _)
       |[(creds & tok & h & cp & r & _ & _ & ->)|(e & -> & He & _)]];
    [done | | done].
  pose proof (collected_cases (S:=option pydict) r) as Hr.
  destruct r as [obs|msg]; [by destruct Hr as (vs & _ & ->)|].
  by rewrite Hr.
Qed.

(** Where the events of the setup can stand. *)
Lemma setup_events_at (conditions : list pyval) (kwargs : pydict) (w : W)
    (i : nat) (e : event) :
  events (setup conditions kwargs w) !! i = Some e →
  match e with
  | SendConditions _ _ _ _ => i = 0%nat
  | SetupStudy _ _ _ _ _ places _ _ =>
      i = 1%nat ∧ places = PyInt (Z.of_nat (length conditions))
  | _ => False
  end.
Proof.
  unfold setup, send_conditions, setup_study.
  exec_cases; simpl;
    destruct i as [|[|[|i]]]; simpl; intros [= <-]; done.
Qed.

End setup_facts.

(** * The events of a run, tick by tick *)

Section shape_facts.
Context (continuing : list event → Prop).
Context (completing : list event → reply pyodict → Prop).
Context (failing : list event → Prop).
Hypothesis continuing_no_fetch :
  ∀ t, continuing t → Forall (λ e, ¬ is_fetch e) t.
Hypothesis failing_no_fetch :
  ∀ t, failing t → Forall (λ e, ¬ is_fetch e) t.
Hypothesis completing_ends_with_fetch :
  ∀ t r, completing t r →
    ∃ t0 creds,
      t = t0 ++ [GetObservations "autora" creds r] ∧
      Forall (λ e, ¬ is_fetch e) t0.

Lemma fetches_app (evs1 evs2 : list event) :
  fetches (evs1 ++ evs2) = (fetches evs1 + fetches evs2)%nat.
Proof. unfold fetches. by rewrite filter_app, length_app. Qed.

Lemma fetches_none (evs : list event) :
  Forall (λ e, ¬ is_fetch e) evs → fetches evs = O.
Proof.
  unfold fetches. induction 1 as [|e evs He _ IH]; [done|].
  by rewrite filter_cons_False.
Qed.

Lemma fetches_concat_none (ticks : list (list event)) :
  Forall (Forall (λ e, ¬ is_fetch e)) ticks → fetches (concat ticks) = O.
Proof.
  induction 1 as [|t ticks Ht _ IH]; simpl; [done|].
  by rewrite fetches_app, fetches_none, IH.
Qed.

Lemma not_fetch_free_snoc (evs : list event) (ns : string) (creds : pyval)
    (r : reply pyodict) :
  ¬ Forall (λ e, ¬ is_fetch e) (evs ++ [GetObservations ns creds r]).
Proof.
  intros [_ Hf]%Forall_app. apply Forall_cons in Hf as [Hf _]. by apply Hf.
Qed.

Lemma fetches_completing (t : list event) (r : reply pyodict) :
  completing t r → fetches t = 1%nat.
Proof.
  intros (t0 & creds & -> & Ht0)%completing_ends_with_fetch.
  by rewrite fetches_app, fetches_none.
Qed.

(** The run returns exactly when its last tick found it complete and
    the fetch was replied to. *)
Lemma final_tick_returns (r : result (list pyval)) (final : list event)
    (vs : list pyval) :
  final_tick_of completing failing r final →
  r = Ret vs ↔
  ∃ observation,
    completing final (Done observation) ∧ observation_list observation = Ok vs.
Proof.
  intros Hfinal. split; [by intros ->|].
  intros (obs & Hc & Hvs).
  destruct (completing_ends_with_fetch _ _ Hc) as (t0 & creds & -> & _).
  destruct r as [vs'|e|]; simpl in Hfinal.
  - destruct Hfinal as (obs' & Hc' & Hvs').
    destruct (completing_ends_with_fetch _ _ Hc') as (t1 & creds' & Ht & _).
    apply app_inj_tail in Ht as [_ [= -> ->]]. congruence.
  - destruct Hfinal as [Hf%failing_no_fetch|(msg & Hc' & _)].
    + by apply not_fetch_free_snoc in Hf.
    + destruct (completing_ends_with_fetch _ _ Hc') as (t1 & creds' & Ht & _).
      by apply app_inj_tail in Ht as [_ [=]].
  - by destruct t0.
Qed.

Lemma fetch_discipline_intro (r : result (list pyval)) (pre : list event)
    (ticks : list (list event)) (final : list event) :
  Forall (λ e, ¬ is_fetch e) pre →
  Forall continuing ticks →
  final_tick_of completing failing r final →
  fetch_discipline continuing completing r (pre ++ concat ticks ++ final).
Proof.
  intros Hpre Hticks Hfinal.
  assert (Forall (Forall (λ e, ¬ is_fetch e)) ticks) as Hticks'.
  { eapply Forall_impl; [apply Hticks | apply continuing_no_fetch]. }
  assert (fetches (pre ++ concat ticks ++ final) = fetches final) as Hcount.
  { by rewrite !fetches_app, fetches_none, fetches_concat_none. }
  exists pre, ticks, final. split_and!; [done | done | |].
  { apply Forall_forall. intros t Ht. split.
    - by eapply Forall_forall in Hticks.
    - by eapply Forall_forall in Hticks'. }
  rewrite Hcount. destruct r as [vs|e|]; simpl in Hfinal.
  - destruct Hfinal as (obs & Hc & _). right.
    split; [by exists (Done obs) | by eapply fetches_completing].
  - destruct Hfinal as [Hf%failing_no_fetch|(msg & Hc & _)].
    + left. by rewrite fetches_none.
    + right. split; [by exists (Failed msg) | by eapply fetches_completing].
  - subst final. left. split_and!; [by constructor | done | done].
Qed.

(** A run whose last event is a fetch that was replied to returns the
    values of the mapping fetched. *)
Lemma fetched_is_returned (r : result (list pyval)) (pre : list event)
    (ticks : list (list event)) (final pre0 : list event) (ns : string)
    (creds : pyval) (observation : pyodict) :
  Forall (λ e, ¬ is_fetch e) pre →
  Forall continuing ticks →
  final_tick_of completing failing r final →
  pre ++ concat ticks ++ final =
    pre0 ++ [GetObservations ns creds (Done observation)] →
  ∃ vs,
    r = Ret vs ∧ observation_list observation = Ok vs ∧
    length vs = length observation.
Proof.
  intros Hpre Hticks Hfinal Hev.
  assert (Forall (λ e, ¬ is_fetch e) (pre ++ concat ticks)) as Hquiet.
  { apply Forall_app. split; [done|]. apply Forall_concat.
    eapply Forall_impl; [apply Hticks | apply continuing_no_fetch]. }
  rewrite app_assoc in Hev.
  assert (Forall (λ e, ¬ is_fetch e) final → False) as Hnoisy.
  { intros Hf. apply (not_fetch_free_snoc pre0 ns creds (Done observation)).
    rewrite <- Hev. by apply Forall_app. }
  destruct r as [vs|e|]; simpl in Hfinal.
  - destruct Hfinal as (obs & Hc & Hvs).
    destruct (completing_ends_with_fetch _ _ Hc) as (t0 & creds' & -> & _).
    rewrite app_assoc in Hev. apply app_inj_tail in Hev as [_ [= _ _ ->]].
    exists vs. split_and!; [done | done | by apply observation_list_length].
  - destruct Hfinal as [Hf%failing_no_fetch|(msg & Hc & _)]; [done|].
    destruct (completing_ends_with_fetch _ _ Hc) as (t0 & creds' & -> & _).
    rewrite app_assoc in Hev. by apply app_inj_tail in Hev as [_ [=]].
  - subst final. destruct Hnoisy. by constructor.
Qed.

End shape_facts.

Lemma continuing_tick_no_fetch (t : list event) :
  continuing_tick t → Forall (λ e, ¬ is_fetch e) t.
Proof. by intros (h & cp & _ & _ & ?). Qed.

Lemma failing_tick_no_fetch (t : list event) :
  failing_tick t → Forall (λ e, ¬ is_fetch e) t.
Proof. by intros [? _]. Qed.

Lemma completing_tick_ends_with_fetch (t : list event) (r : reply pyodict) :
  completing_tick t r →
  ∃ t0 creds,
    t = t0 ++ [GetObservations "autora" creds r] ∧
    Forall (λ e, ¬ is_fetch e) t0.
Proof.
  intros (creds & tm & sid & tok & h & cp & -> & _).
  exists [CheckFirebaseStatus "autora" creds tm (Done h);
          CheckProlificStatus sid tok (Done cp)], creds.
  split; [done | each_event].
Qed.

Lemma host_continuing_tick_no_fetch (t : list event) :
  host_continuing_tick t → Forall (λ e, ¬ is_fetch e) t.
Proof. intros (creds & tm & h & secs & -> & _). each_event. Qed.

Lemma host_failing_tick_no_fetch (t : list event) :
  host_failing_tick t → Forall (λ e, ¬ is_fetch e) t.
Proof. by intros [? _]. Qed.

Lemma host_completing_tick_ends_with_fetch (t : list event)
    (r : reply pyodict) :
  host_completing_tick t r →
  ∃ t0 creds,
    t = t0 ++ [GetObservations "autora" creds r] ∧
    Forall (λ e, ¬ is_fetch e) t0.
Proof.
  intros (creds & tm & h & -> & _).
  exists [CheckFirebaseStatus "autora" creds tm (Done h)], creds.
  split; [done | each_event].
Qed.

(** * The completion signal and the fetch *)

Section signals.
Context {W : Type} `{!Collab W}.
Context (signal : list event → Prop) (n : nat).
Hypothesis signal_head :
  ∀ suf, signal suf → ∃ e rest, suf = e :: rest ∧ is_host_poll e = true.

Lemma fetch_follows_quiet (r : result (list pyval)) (evs : list event) :
  Forall (λ e, is_host_poll e = false) evs → fetch_follows signal n r evs.
Proof.
  intros Hq pre suf -> (e & rest & -> & He)%signal_head.
  apply Forall_app in Hq as [_ Hq]. apply Forall_cons in Hq as [Hq _].
  congruence.
Qed.

Lemma fetch_follows_after (r : result (list pyval)) (pre0 evs : list event) :
  Forall (λ e, is_host_poll e = false) pre0 →
  fetch_follows signal n r evs → fetch_follows signal n r (pre0 ++ evs).
Proof.
  intros Hq Hevs pre suf Heq Hsig.
  apply app_eq_inv in Heq as [(k & -> & ->)|(k & -> & ->)].
  - destruct k as [|e k]; [by apply (Hevs [] evs)|].
    destruct (signal_head _ Hsig) as (e' & rest & [= <- _] & He).
    apply Forall_app in Hq as [_ Hq]. apply Forall_cons in Hq as [Hq _].
    congruence.
  - by apply (Hevs k suf).
Qed.

Lemma collected_returned {S} (reply : reply pyodict) :
  match collected (S:=S) reply with
  | Ret (Continue _) => False
  | Ret (Return vs) => returned reply = Ret vs
  | Raise e => returned reply = Raise e
  | OutOfFuel => False
  end.
Proof.
  destruct reply as [obs|msg]; simpl; [|done].
  by destruct (observation_list obs).
Qed.

Lemma loop_fetch_follows {S} (body : S → M W (step S (list pyval)))
    (fuel : nat) (s : S) (w : W) :
  (∀ s' w',
     signalling signal n (res (body s' w')) (events (body s' w'))) →
  fetch_follows signal n (res (while_true fuel body s w))
    (events (while_true fuel body s w)).
Proof.
  intros Hbody. revert s w. induction fuel as [|fuel IH]; intros s w; simpl.
  - by apply fetch_follows_quiet.
  - rewrite events_bind, res_bind.
    destruct (Hbody s w) as [Hfirst Hsig].
    set (t := events (body s w)) in *.
    assert (∀ pre suf,
              match res (body s w) with
              | Ret (Continue s') =>
                  events (while_true fuel body s' (world (body s w)))
              | Ret (Return a) => events (ret (W:=W) a (world (body s w)))
              | _ => []
              end = pre ++ suf →
              signal suf →
              ∃ creds reply,
                drop n suf = [GetObservations "autora" creds reply] ∧
                match res (body s w) with
                | Ret (Continue s') =>
                    res (while_true fuel body s' (world (body s w)))
                | Ret (Return a) => res (ret (W:=W) a (world (body s w)))
                | Raise e => Raise e
                | OutOfFuel => OutOfFuel
                end = returned reply) as Hrest.
    { intros pre suf Heq Hs.
      destruct (res (body s w)) as [[s'|a]|e|].
      - by apply (IH s' (world (body s w)) pre suf).
      - simpl in Heq. destruct pre, suf; try done.
        by destruct (signal_head _ Hs) as (? & ? & ? & _).
      - destruct pre, suf; try done.
        by destruct (signal_head _ Hs) as (? & ? & ? & _).
      - destruct pre, suf; try done.
        by destruct (signal_head _ Hs) as (? & ? & ? & _). }
    intros pre suf Heq Hs.
    assert (match res (body s w) with
            | Ret x =>
                events
                  (match x with
                   | Continue s' => while_true fuel body s'
                   | Return a => ret a
                   end (world (body s w)))
            | _ => []
            end =
            match res (body s w) with
            | Ret (Continue s') =>
                events (while_true fuel body s' (world (body s w)))
            | Ret (Return a) => events (ret (W:=W) a (world (body s w)))
            | _ => []
            end) as Hev by (by destruct (res (body s w)) as [[]| |]).
    assert (match res (body s w) with
            | Ret x =>
                res
                  (match x with
                   | Continue s' => while_true fuel body s'
                   | Return a => ret a
                   end (world (body s w)))
            | Raise e => Raise e
            | OutOfFuel => OutOfFuel
            end =
            match res (body s w) with
            | Ret (Continue s') =>
                res (while_true fuel body s' (world (body s w)))
            | Ret (Return a) => res (ret (W:=W) a (world (body s w)))
            | Raise e => Raise e
            | OutOfFuel => OutOfFuel
            end) as Hre by (by destruct (res (body s w)) as [[]| |]).
    rewrite Hev in Heq. rewrite Hre. clear Hev Hre.
    apply app_eq_inv in Heq as [(k & Ht & ->)|(k & -> & Hk)].
    2:{ by apply (Hrest k suf). }
    destruct k as [|e k]; [by apply (Hrest [] _)|].
      destruct (signal_head _ Hs) as (e' & rest & [= <- _] & He).
      destruct Hfirst as [Hnil|(e0 & tail & Ht0 & Htail)].
      { rewrite Hnil in Ht. by destruct pre. }
      destruct pre as [|e1 pre].
      2:{ rewrite Ht0 in Ht. injection Ht as _ ->.
          apply Forall_app in Htail as [_ Htail].
          apply Forall_cons in Htail as [Htail _]. congruence. }
      simpl in Ht. rewrite <- Ht in Hs |- *.
      destruct (Hsig _ (λ Hnc,
                  match res (body s w) as r
                    return (∀ s', r ≠ Ret (Continue s')) →
                           match r with
                           | Ret (Continue s') =>
                               events (while_true fuel body s'
                                         (world (body s w)))
                           | Ret (Return a) =>
                               events (ret (W:=W) a (world (body s w)))
                           | _ => []
                           end = []
                  with
                  | Ret (Continue s') => λ H, False_ind _ (H s' eq_refl)
                  | _ => λ _, eq_refl
                  end Hnc) Hs) as (creds & reply & Hdrop & Hres).
      exists creds, reply.
      pose proof (collected_returned (S:=S) reply) as Hcr.
      rewrite <- Hres in Hcr.
      destruct (res (body s w)) as [[s1|a]|err|]; try done;
        rewrite app_nil_r; done.
Qed.

End signals.

Section signal_of_the_runners.
Context {W : Type} `{!Collab W}.
Local Open Scope run_scope.

Lemma reconcile_post (kwargs : pydict) (l : locals) (h : pyval)
    (cp : option pydict) :
  post (λ _, True) (λ _, True) False (reconcile kwargs l h cp).
Proof.
  unfold reconcile, prolific_status, local, publish_study, start_study,
    pause_study.
  repeat first
    [ apply post_ret; done
    | apply post_raise; done
    | apply post_getitem; [intros|done]
    | apply post_when; [done|]
    | apply post_call; [done|done]
    | eapply (post_bind (λ _, True)); [|intros ? _]
    | match goal with
      | |- post _ _ _ (match ?v with Some _ => _ | None => _ end) => destruct v
      end ].
  all: done.
Qed.

(** What the rest of a tick that has not returned does: the recruiter
    actions, then the sleep, unless something raised before it. *)
Lemma carry_on_events (kwargs : pydict) (l : locals) (h : pyval)
    (cp : option pydict) (w : W) :
  ∃ acts rest,
    events (carry_on kwargs l h cp w) = acts ++ rest ∧
    Forall (λ e, is_Some (recruiter_action e)) acts ∧
    ((rest = [] ∧ ∃ e, res (carry_on kwargs l h cp w) = Raise e) ∨
     (∃ secs r,
        rest = [Sleep secs r] ∧ kwargs !! "sleep_time" = Some secs ∧
        res (carry_on kwargs l h cp w) =
          match r with
          | Done _ => Ret (Continue cp)
          | Failed msg => Raise (CollaboratorError msg)
          end)).
Proof.
  unfold carry_on. rewrite events_bind, res_bind.
  pose proof (reconcile_post kwargs l h cp w) as Hpost.
  exists (events (reconcile kwargs l h cp w)).
  destruct (res (reconcile kwargs l h cp w)) as [[]|e|]; [| |done].
  - generalize (world (reconcile kwargs l h cp w)). intros w1. unfold sleep.
    destruct (kwargs !! "sleep_time") as [secs|] eqn:Hsecs; exec.
    + destruct (ext_sleep secs w1) as [[[]|msg] w2] eqn:Hsleep; exec; simpl;
        eexists; (split_and!; [done | apply reconcile_emits |]);
        right; by eexists secs, _.
    + exists []. split_and!; [done | apply reconcile_emits |].
      left. eauto.
  - exists []. split_and!; [done | apply reconcile_emits |]. left. eauto.
Qed.

Lemma opens_complete_head (suf : list event) :
  opens_complete suf → ∃ e rest, suf = e :: rest ∧ is_host_poll e = true.
Proof.
  intros (h & cp & Hsnap & _). destruct suf as [|[] rest]; try done.
  by eexists _, _.
Qed.

Lemma opens_finished_head (suf : list event) :
  opens_finished suf → ∃ e rest, suf = e :: rest ∧ is_host_poll e = true.
Proof. intros (ns & creds & tm & h & rest & -> & _). by eexists _, _. Qed.

(** A tick on whose snapshot completion holds fetches at once and ends
    with what the fetch gives. *)
Lemma tick_complete_fetches (kwargs : pydict) (l : locals)
    (cp0 : option pydict) (w : W) (h : pyval) (cp : pydict) :
  snapshot (events (tick kwargs l cp0 w)) = Some (h, cp) →
  completion h cp = Ok true →
  ∃ creds tok reply,
    events (tick kwargs l cp0 w) =
      [CheckFirebaseStatus "autora" creds (time_out l) (Done h);
       CheckProlificStatus (study_id l) tok (Done cp);
       GetObservations "autora" creds reply] ∧
    res (tick kwargs l cp0 w) = collected reply.
Proof.
  intros (creds & tok & w1 & w2 & Hcreds & Htok & Htruthy & Hh & Hcp)
    %tick_snapshot_inv Hc.
  rewrite (tick_after_snapshot kwargs l cp0 w w1 w2 creds tok h cp) by done.
  rewrite Hc.
  destruct (collect_spec (S:=option pydict) creds w2) as (r & Hev & Hres).
  exists creds, tok, r. simpl. by rewrite Hev, Hres.
Qed.

Lemma tick_signalling (kwargs : pydict) (l : locals) (cp0 : option pydict)
    (w : W) :
  dict_truthy (prolific_dict l) = true →
  signalling opens_complete 2 (res (tick kwargs l cp0 w))
    (events (tick kwargs l cp0 w)).
Proof.
  intros Htruthy.
  assert (∀ more,
            opens_complete (events (tick kwargs l cp0 w) ++ more) →
            (2 ≤ length (events (tick kwargs l cp0 w)))%nat →
            ∃ creds reply,
              drop 2 (events (tick kwargs l cp0 w)) =
                [GetObservations "autora" creds reply] ∧
              res (tick kwargs l cp0 w) = collected reply) as Hlong.
  { intros more (h & cp & Hsnap & Hc) Hlen.
    assert (snapshot (events (tick kwargs l cp0 w)) = Some (h, cp)) as Hsnap'.
    { destruct (events (tick kwargs l cp0 w)) as [|e1 [|e2 t]];
        simpl in Hlen; [lia | lia | done]. }
    destruct (tick_complete_fetches kwargs l cp0 w h cp Hsnap' Hc)
      as (creds & tok & reply & Hev & Hres).
    exists creds, reply. by rewrite Hev. }
  revert Hlong.
  destruct (kwargs !! "firebase_credentials") as [creds|] eqn:Hcreds.
  2:{ unfold tick. exec. simpl. intros _. split; [by left|].
      intros more Hmore Hs. rewrite Hmore in Hs by done.
      by destruct Hs as (? & ? & ? & _). }
  destruct (ext_check_firebase_status "autora" creds (time_out l) w)
    as [[h|msg] w1] eqn:Hh.
  2:{ unfold tick, check_firebase_status. exec. simpl. intros _.
      split; [right; by eexists _, _|].
      intros more Hmore Hs. rewrite Hmore in Hs by done.
      by destruct Hs as (? & ? & ? & _). }
  destruct (kwargs !! "prolific_token") as [tok|] eqn:Htok.
  2:{ unfold tick, check_firebase_status, poll_prolific. rewrite Htruthy.
      exec. simpl. intros _. split; [right; by eexists _, _|].
      intros more Hmore Hs. rewrite Hmore in Hs by done.
      by destruct Hs as (? & ? & ? & _). }
  destruct (ext_check_prolific_status (study_id l) tok w1)
    as [[cp|msg] w2] eqn:Hcp.
  2:{ unfold tick, check_firebase_status, poll_prolific,
        check_prolific_status. rewrite Htruthy.
      exec. simpl. intros _. split; [right; eexists _, _; split; [done|each_event]|].
      intros more Hmore Hs. by destruct Hs as (? & ? & ? & _). }
  rewrite (tick_after_snapshot kwargs l cp0 w w1 w2 creds tok h cp) by done.
  intros Hlong. split.
  - right. eexists _, _. split; [reflexivity|].
    apply Forall_cons; split; [done|].
    destruct (completion h cp) as [[]|e] eqn:Hc.
    + destruct (collect_spec (S:=option pydict) creds w2) as (r & -> & _).
      each_event.
    + eapply Forall_impl; [apply (carry_on_emits kwargs l h (Some cp) w2)|].
      intros [] [_ Hp]; simpl in *; tauto.
    + by apply Forall_nil.
  - intros more _ Hs. apply (Hlong more Hs). simpl. lia.
Qed.

Lemma firebase_tick_signalling (creds tm secs : pyval) (u : unit) (w : W) :
  signalling opens_finished 1 (res (firebase_tick creds tm secs u w))
    (events (firebase_tick creds tm secs u w)).
Proof.
  unfold firebase_tick, check_firebase_status, sleep.
  destruct (ext_check_firebase_status "autora" creds tm w)
    as [[h|msg] w1] eqn:Hh; exec.
  2:{ simpl. split; [right; by eexists _, _|].
      intros more _ (? & ? & ? & ? & ? & [=] & _). }
  destruct (py_eq_str h "finished") eqn:Hfin; exec.
  - destruct (collect_spec (S:=unit) creds w1) as (r & Hev & Hres).
    simpl. rewrite Hev, Hres. split.
    + right. eexists _, _. split; [done | each_event].
    + intros more _ _. by exists creds, r.
  - assert (∀ t more,
              opens_finished
                ((CheckFirebaseStatus "autora" creds tm (Done h) :: t) ++ more) →
              False) as Hno.
    { intros t more (? & ? & ? & ? & ? & [= _ _ _ <- _] & Hf). congruence. }
    destruct (ext_sleep secs w1) as [[[]|msg] w2] eqn:Hs; exec; simpl.
    + split; [right; eexists _, _; split; [done | each_event]|].
      intros more _ Hsig. by destruct (Hno _ _ Hsig).
    + split; [right; eexists _, _; split; [done | each_event]|].
      intros more _ Hsig. by destruct (Hno _ _ Hsig).
Qed.

(** In a run of the combined runner a snapshot on which completion
    holds is followed by the fetch, which ends the run. *)
Lemma _firebase_prolific_run_fetch_follows (fuel : nat)
    (conditions : list pyval) (kwargs : pydict) (w : W) :
  fetch_follows opens_complete 2
    (res (_firebase_prolific_run fuel conditions kwargs w))
    (events (_firebase_prolific_run fuel conditions kwargs w)).
Proof.
  unfold _firebase_prolific_run. rewrite events_bind, res_bind.
  pose proof (setup_emits conditions kwargs w) as Hsetup.
  pose proof (setup_post conditions kwargs w) as Htruthy.
  assert (Forall (λ e, is_host_poll e = false)
            (events (setup conditions kwargs w))) as Hquiet.
  { eapply Forall_impl; [apply Hsetup|]. by intros []. }
  destruct (res (setup conditions kwargs w)) as [l|e|].
  - apply fetch_follows_after; [apply opens_complete_head | done |].
    apply loop_fetch_follows; [apply opens_complete_head|].
    intros cp0 w'. by apply tick_signalling.
  - rewrite app_nil_r.
    by apply fetch_follows_quiet; [apply opens_complete_head|].
  - done.
Qed.

(** In a run of the host-only runner a status read that reads finished
    is followed by the fetch, which ends the run. *)
Lemma _firebase_run_fetch_follows (fuel : nat) (conditions : list pyval)
    (kwargs : pydict) (w : W) :
  fetch_follows opens_finished 1
    (res (_firebase_run fuel conditions kwargs w))
    (events (_firebase_run fuel conditions kwargs w)).
Proof.
  unfold _firebase_run, send_conditions.
  destruct (kwargs !! "firebase_credentials") as [creds|] eqn:Hcreds; exec.
  2:{ by apply fetch_follows_quiet; [apply opens_finished_head|]. }
  destruct (kwargs !! "time_out") as [tm|] eqn:Htm; exec.
  2:{ by apply fetch_follows_quiet; [apply opens_finished_head|]. }
  destruct (kwargs !! "sleep_time") as [secs|] eqn:Hsecs; exec.
  2:{ by apply fetch_follows_quiet; [apply opens_finished_head|]. }
  destruct (ext_send_conditions "autora" conditions creds w)
    as [[[]|msg] w1] eqn:Hsend; exec.
  2:{ apply fetch_follows_quiet; [apply opens_finished_head|]. simpl.
      each_event. }
  simpl.
  apply (fetch_follows_after opens_finished 1 opens_finished_head _ [_]);
    [each_event|].
  apply loop_fetch_follows; [apply opens_finished_head|].
  intros u w'. apply firebase_tick_signalling.
Qed.

(** A tick that falls through, call by call. *)
Lemma tick_falls_through (kwargs : pydict) (l : locals) (cp0 : option pydict)
    (w : W) (s : option pydict) :
  dict_truthy (prolific_dict l) = true →
  res (tick kwargs l cp0 w) = Ret (Continue s) →
  sleeping_tick (events (tick kwargs l cp0 w)).
Proof.
  intros Htruthy Hres.
  destruct (tick_classify kwargs l cp0 w Htruthy)
    as [(h & cp & Hsnap & Hc & _ & _)
       |[(creds & tok & h & cp & r & _ & _ & Hr)|(e & He & _)]].
  - destruct (tick_snapshot_inv _ _ _ _ _ _ Hsnap)
      as (creds & tok & w1 & w2 & Hcreds & Htok & _ & Hh & Hcp).
    revert Hres.
    rewrite (tick_after_snapshot kwargs l cp0 w w1 w2 creds tok h cp) by done.
    rewrite Hc. simpl.
    destruct (carry_on_events kwargs l h (Some cp) w2)
      as (acts & rest & -> & Hacts
          & [[-> [e ->]]|(secs & r & -> & _ & ->)]); [done|].
    destruct r as [[]|msg]; [|done]. intros _.
    by exists creds, (time_out l), (study_id l), tok, h, cp, acts, secs.
  - rewrite Hr in Hres.
    pose proof (collected_cases (S:=option pydict) r) as Hcases.
    destruct r as [obs|msg]; [destruct Hcases as (vs & _ & Hvs)|];
      congruence.
  - congruence.
Qed.

Lemma sleeping_tick_continuing (t : list event) :
  sleeping_tick t → continuing_tick t.
Proof.
  intros (creds & tm & sid & tok & h & cp & acts & secs & -> & Hc & Hacts).
  exists h, cp. split_and!; [done | done |].
  apply Forall_cons; split; [simpl; tauto|].
  apply Forall_cons; split; [simpl; tauto|].
  apply Forall_app. split; [|each_event].
  eapply Forall_impl; [apply Hacts|]. intros [] [? [=]]; simpl; tauto.
Qed.

Lemma sleeping_tick_no_fetch (t : list event) :
  sleeping_tick t → Forall (λ e, ¬ is_fetch e) t.
Proof. intros Ht. by apply continuing_tick_no_fetch, sleeping_tick_continuing. Qed.

(** The events of a run of the combined runner, call by call: those of
    the setup, those of the ticks that fell through, those of the last
    tick. *)
Lemma combined_run_ticks (fuel : nat) (conditions : list pyval)
    (kwargs : pydict) (w : W) :
  ∃ ticks final,
    events (_firebase_prolific_run fuel conditions kwargs w) =
      events (setup conditions kwargs w) ++ concat ticks ++ final ∧
    Forall sleeping_tick ticks ∧
    final_tick (res (_firebase_prolific_run fuel conditions kwargs w)) final.
Proof.
  unfold _firebase_prolific_run. rewrite events_bind, res_bind.
  pose proof (setup_post conditions kwargs w) as Hsetup.
  destruct (res (setup conditions kwargs w)) as [l|e|]; [| |done].
  2:{ exists [], []. split_and!; [done | done |].
      left. split; [by constructor | done]. }
  destruct (while_true_ticks (λ _, True) sleeping_tick final_tick
              (tick kwargs l)) with (fuel := fuel) (s := @None pydict)
    (w := world (setup conditions kwargs w))
    as (ticks & final & Hev & Hticks & Hfinal); [done | | done |].
  2:{ exists ticks, final. by rewrite Hev. }
  intros cp0 w' _.
  pose proof (tick_falls_through kwargs l cp0 w') as Hfall.
  destruct (tick_classify kwargs l cp0 w' Hsetup)
    as [(h & cp & Hsnap & Hc & Hres & Hnf)
       |[(creds & tok & h & cp & r & Hev & Hc & ->)|(e & -> & _ & Hnf & Hsn)]].
  - rewrite Hres. split; [done|]. by eapply Hfall.
  - pose proof (collected_cases (S:=option pydict) r) as Hr.
    destruct r as [obs|msg].
    + destruct Hr as (vs & Hvs & ->). exists obs. split; [|done].
      rewrite Hev. by exists creds, (time_out l), (study_id l), tok, h, cp.
    + rewrite Hr. right. exists msg. split; [|done].
      rewrite Hev. by exists creds, (time_out l), (study_id l), tok, h, cp.
  - by left.
Qed.

(** A last tick that opens with a snapshot on which completion holds
    is the tick that fetches. *)
Lemma final_tick_complete (r : result (list pyval)) (final : list event)
    (h : pyval) (cp : pydict) :
  final_tick r final →
  snapshot final = Some (h, cp) → completion h cp = Ok true →
  ∃ reply, completing_tick final reply.
Proof.
  intros Hfinal Hsnap Hc. destruct r as [vs|e|]; simpl in Hfinal.
  - destruct Hfinal as (obs & Hct & _). by exists (Done obs).
  - destruct Hfinal as [[_ Hnot]|(msg & Hct & _)].
    + by destruct (Hnot h cp Hsnap).
    + by exists (Failed msg).
  - by subst final.
Qed.

End signal_of_the_runners.

(** * The runners on the scenarios of the specification *)

(** Host-only: available, then finished, with two observations. *)
Example host_only_scenario :
  res (_firebase_run 5 [PyStr "A"; PyStr "B"] Sim.kwargs Demo.host_world) =
    Ret [PyObj 1; PyObj 2] ∧
  recruiter_actions
    (events (_firebase_run 5 [PyStr "A"; PyStr "B"] Sim.kwargs
               Demo.host_world)) = [].
Proof. split; vm_compute; reflexivity. Qed.

(** Combined: the campaign is published on the first tick, and the run
    completes on the tick where the host is finished and the
    submissions have reached the places. *)
Example combined_scenario :
  res (_firebase_prolific_run 5 [PyObj 10; PyObj 11] Sim.kwargs
         Demo.campaign_world) = Ret [PyObj 1; PyObj 10; PyObj 2] ∧
  recruiter_actions
    (events (_firebase_prolific_run 5 [PyObj 10; PyObj 11] Sim.kwargs
               Demo.campaign_world)) = [Publish].
Proof. split; vm_compute; reflexivity. Qed.

(** Unavailable with a started campaign, then available with a paused
    one: one pause, then one start. *)
Example pause_then_start_scenario :
  recruiter_actions
    (events (_firebase_prolific_run 2 [PyObj 10; PyObj 11] Sim.kwargs
               Demo.throttled_world)) = [Pause; Start] ∧
  res (_firebase_prolific_run 2 [PyObj 10; PyObj 11] Sim.kwargs
         Demo.throttled_world) = OutOfFuel.
Proof. split; vm_compute; reflexivity. Qed.

(** * The claims *)



(** C2.  A run of the combined runner returns exactly when a tick's
    snapshot satisfies both conditions together.  Its events are those
    of the setup, then ticks that each read a snapshot on which the two
    did not both hold, acted on the campaign and slept, then a last
    tick; the run returns exactly when that last tick read a snapshot
    on which both hold and fetched, and a last tick that reads such a
    snapshot always fetches.  Wherever in the run a snapshot on which
    both hold has been read, the fetch follows at once and ends the
    run: with the values fetched when the fetch is answered, which then
    are returned.  A tick, of any run, on whose snapshot both hold
    fetches and ends with what the fetch gives; one on whose snapshot
    they do not both hold does not return.  Both conditions are needed:
    completion holds exactly when the submissions have reached the
    places and the host status is finished.  Once the run returns, more
    fuel changes nothing. *)
Theorem combined_run_completes_on_both_conditions {W : Type} `{!Collab W}
    (fuel : nat) (conditions : list pyval) (kwargs : pydict) (w : W) :
  (∃ ticks final,
     events (_firebase_prolific_run fuel conditions kwargs w) =
       events (setup conditions kwargs w) ++ concat ticks ++ final ∧
     Forall sleeping_tick ticks ∧
     (∀ vs,
        res (_firebase_prolific_run fuel conditions kwargs w) = Ret vs ↔
        ∃ observation,
          completing_tick final (Done observation) ∧
          observation_list observation = Ok vs) ∧
     (∀ h cp vs,
        snapshot final = Some (h, cp) → completion h cp ≠ Ok true →
        res (_firebase_prolific_run fuel conditions kwargs w) ≠ Ret vs) ∧
     (∀ h cp,
        snapshot final = Some (h, cp) → completion h cp = Ok true →
        ∃ reply, completing_tick final reply)) ∧
  fetch_follows opens_complete 2
    (res (_firebase_prolific_run fuel conditions kwargs w))
    (events (_firebase_prolific_run fuel conditions kwargs w)) ∧
  (∀ observation,
     ∃ vs, observation_list observation = Ok vs ∧
           returned (Done observation) = Ret vs) ∧
  (∀ l carried w' h cp vs,
     snapshot (events (tick kwargs l carried w')) = Some (h, cp) →
     completion h cp ≠ Ok true →
     res (tick kwargs l carried w') ≠ Ret (Return vs)) ∧
  (∀ l carried w' h cp,
     snapshot (events (tick kwargs l carried w')) = Some (h, cp) →
     completion h cp = Ok true →
     ∃ creds tok reply,
       events (tick kwargs l carried w') =
         [CheckFirebaseStatus "autora" creds (time_out l) (Done h);
          CheckProlificStatus (study_id l) tok (Done cp);
          GetObservations "autora" creds reply] ∧
       res (tick kwargs l carried w') = collected reply) ∧
  (∀ h cp,
     completion h cp = Ok true ↔
     ∃ submissions places,
       cp !! "number_of_submissions" = Some submissions ∧
       cp !! "total_available_places" = Some places ∧
       py_ge submissions places = Ok true ∧
       h = PyStr "finished") ∧
  (∀ vs fuel',
     res (_firebase_prolific_run fuel conditions kwargs w) = Ret vs →
     (fuel ≤ fuel')%nat →
     _firebase_prolific_run fuel' conditions kwargs w =
     _firebase_prolific_run fuel conditions kwargs w).
Proof.
  split_and!.
  - destruct (combined_run_ticks fuel conditions kwargs w)
      as (ticks & final & Hev & Hticks & Hfinal).
    exists ticks, final. split_and!; [done | done | | |].
    + intros vs.
      apply (final_tick_returns completing_tick failing_tick);
        auto using failing_tick_no_fetch, completing_tick_ends_with_fetch.
    + intros h cp vs Hsnap Hc Hres. rewrite Hres in Hfinal.
      destruct Hfinal as (obs & (? & ? & ? & ? & h' & cp' & -> & Hc') & _).
      simpl in Hsnap. by simplify_eq.
    + intros h cp. by apply (final_tick_complete _ _ _ _ Hfinal).
  - apply _firebase_prolific_run_fetch_follows.
  - intros observation.
    destruct (observation_list_total observation) as [vs Hvs].
    exists vs. simpl. by rewrite Hvs.
  - intros l carried w' h cp vs Hsnap Hc.
    destruct (tick_snapshot_inv _ _ _ _ _ _ Hsnap)
      as (_ & _ & _ & _ & _ & _ & Htruthy & _).
    destruct (tick_classify kwargs l carried w' Htruthy)
      as [(h0 & cp0 & _ & _ & -> & _)
         |[(? & ? & h' & cp' & r & Hev & Hc' & _)|(e & -> & _)]];
      [done | | done].
    rewrite Hev in Hsnap. simpl in Hsnap. by simplify_eq.
  - intros l carried w' h cp. apply tick_complete_fetches.
  - apply completion_true.
  - intros vs fuel' Hres Hle. apply _firebase_prolific_run_mono; [|done].
    by rewrite Hres.
Qed.

Lemma combined_run_completes_on_both_conditions_witness :
  ∃ ticks final observation,
    events (_firebase_prolific_run 10 [PyObj 10; PyObj 11] Sim.kwargs
              Demo.campaign_world) =
      events (setup [PyObj 10; PyObj 11] Sim.kwargs Demo.campaign_world) ++
      concat ticks ++ final ∧
    Forall sleeping_tick ticks ∧
    completing_tick final (Done observation) ∧
    observation_list observation = Ok [PyObj 1; PyObj 10; PyObj 2].
Proof.
  destruct (combined_run_completes_on_both_conditions 10 [PyObj 10; PyObj 11]
              Sim.kwargs Demo.campaign_world)
    as [(ticks & final & Hev & Hticks & Hret & _) _].
  assert (res (_firebase_prolific_run 10 [PyObj 10; PyObj 11] Sim.kwargs
                 Demo.campaign_world) = Ret [PyObj 1; PyObj 10; PyObj 2])
    as Hres by (vm_compute; reflexivity).
  apply Hret in Hres as (observation & Hfinal & Hvs).
  by exists ticks, final, observation.
Defined.

(** C3.  The result of a run is the aggregation of the mapping it
    fetched: a run of either runner whose last call is a fetch that was
    answered returns [observation_list] of the mapping fetched, and a
    run that returns has made such a fetch its last call.  For a
    mapping (its keys distinct) that aggregation is the sequence of its
    values in the ascending lexicographic order of their keys: the
    keys, sorted, paired with the result, are the items of the mapping.
    The result is the same for every iteration order of the mapping, so
    also when the aggregation is applied again to the same mapping.
    The mapping {"c2": O2, "c1": O1, "c10": O10} gives [O1, O10, O2]. *)
Theorem observation_list_is_sorted_projection {W : Type} `{!Collab W}
    (fuel : nat) (conditions : list pyval) (kwargs : pydict) (w : W) :
  (∀ observation : pyodict,
     NoDup (keys observation) →
     ∃ ks vs,
       observation_list observation = Ok vs ∧
       Sorted String.le ks ∧
       ks ≡ₚ keys observation ∧
       zip ks vs ≡ₚ observation ∧
       length vs = length observation ∧
       ∀ observation',
         observation' ≡ₚ observation →
         observation_list observation' = Ok vs) ∧
  (∀ o1 o2 o10 : pyval,
     observation_list [("c2", o2); ("c1", o1); ("c10", o10)] =
       Ok [o1; o10; o2] ∧
     observation_list [("c10", o10); ("c2", o2); ("c1", o1)] =
       Ok [o1; o10; o2]) ∧
  ((∀ pre ns creds observation,
      events (_firebase_run fuel conditions kwargs w) =
        pre ++ [GetObservations ns creds (Done observation)] →
      ∃ vs,
        res (_firebase_run fuel conditions kwargs w) = Ret vs ∧
        observation_list observation = Ok vs) ∧
   (∀ vs,
      res (_firebase_run fuel conditions kwargs w) = Ret vs →
      ∃ pre creds observation,
        events (_firebase_run fuel conditions kwargs w) =
          pre ++ [GetObservations "autora" creds (Done observation)] ∧
        observation_list observation = Ok vs)) ∧
  ((∀ pre ns creds observation,
      events (_firebase_prolific_run fuel conditions kwargs w) =
        pre ++ [GetObservations ns creds (Done observation)] →
      ∃ vs,
        res (_firebase_prolific_run fuel conditions kwargs w) = Ret vs ∧
        observation_list observation = Ok vs) ∧
   (∀ vs,
      res (_firebase_prolific_run fuel conditions kwargs w) = Ret vs →
      ∃ pre creds observation,
        events (_firebase_prolific_run fuel conditions kwargs w) =
          pre ++ [GetObservations "autora" creds (Done observation)] ∧
        observation_list observation = Ok vs)).
Proof.
  split; [|split; [|split]].
  - intros observation Hnd.
    destruct (observation_list_total observation) as [vs Hvs].
    exists (sorted (keys observation)), vs.
    split_and!; [done | apply sorted_Sorted | apply sorted_Permutation | | |].
    + apply zip_keys_values; [done | apply sorted_Permutation |].
      by apply comprehension_Ok.
    + by apply observation_list_length.
    + intros observation' Hp. rewrite <- Hvs. symmetry.
      by apply observation_list_permutation_invariant.
  - intros o1 o2 o10. split; reflexivity.
  - destruct (host_run_shape fuel conditions kwargs w)
      as (pre' & ticks & final & Hev' & Hpre & Hticks & Hfinal).
    assert (Forall (λ e, ¬ is_fetch e) pre') as Hquiet.
    { eapply Forall_impl; [apply Hpre|]. simpl. tauto. }
    split.
    + intros pre ns creds observation Hev. rewrite Hev in Hev'.
      destruct (fetched_is_returned host_continuing_tick host_completing_tick
                  host_failing_tick host_continuing_tick_no_fetch
                  host_failing_tick_no_fetch
                  host_completing_tick_ends_with_fetch
                  (res (_firebase_run fuel conditions kwargs w))
                  pre' ticks final pre ns creds observation)
        as (vs & Hres & Hvs & _); [done | done | done | done |].
      by exists vs.
    + intros vs Hres. rewrite Hres in Hfinal.
      destruct Hfinal as (obs & (creds & tm & h & -> & _) & Hvs).
      exists (pre' ++ concat ticks ++
              [CheckFirebaseStatus "autora" creds tm (Done h)]), creds, obs.
      split; [|done]. rewrite Hev'. by rewrite <- !app_assoc.
  - destruct (combined_run_shape fuel conditions kwargs w)
      as (ticks & final & Hev' & Hticks & Hfinal).
    assert (Forall (λ e, ¬ is_fetch e) (events (setup conditions kwargs w)))
      as Hquiet.
    { eapply Forall_impl; [apply setup_emits|].
      intros [] ?; simpl in *; tauto. }
    split.
    + intros pre ns creds observation Hev. rewrite Hev in Hev'.
      destruct (fetched_is_returned continuing_tick completing_tick
                  failing_tick continuing_tick_no_fetch failing_tick_no_fetch
                  completing_tick_ends_with_fetch
                  (res (_firebase_prolific_run fuel conditions kwargs w))
                  (events (setup conditions kwargs w)) ticks final pre ns
                  creds observation)
        as (vs & Hres & Hvs & _); [done | done | done | done |].
      by exists vs.
    + intros vs Hres. rewrite Hres in Hfinal.
      destruct Hfinal
        as (obs & (creds & tm & sid & tok & h & cp & -> & _) & Hvs).
      exists (events (setup conditions kwargs w) ++ concat ticks ++
              [CheckFirebaseStatus "autora" creds tm (Done h);
               CheckProlificStatus sid tok (Done cp)]), creds, obs.
      split; [|done]. rewrite Hev'. by rewrite <- !app_assoc.
Qed.

Lemma observation_list_is_sorted_projection_witness :
  NoDup (keys Demo.observations) ∧
  (∃ ks vs,
     observation_list Demo.observations = Ok vs ∧
     Sorted String.le ks ∧
     zip ks vs ≡ₚ Demo.observations) ∧
  ∃ vs,
    res (_firebase_prolific_run 10 [PyObj 10; PyObj 11] Sim.kwargs
           Demo.campaign_world) = Ret vs ∧
    observation_list Demo.observations = Ok vs.
Proof.
  assert (NoDup (keys Demo.observations)) as Hnd.
  { vm_compute. repeat constructor; rewrite ?elem_of_cons, ?elem_of_nil;
      intros ?; destruct_or?; done. }
  destruct (observation_list_is_sorted_projection 10 [PyObj 10; PyObj 11]
              Sim.kwargs Demo.campaign_world)
    as (Hsorted & _ & _ & Hfetched & _).
  split_and!; [done | |].
  - destruct (Hsorted Demo.observations Hnd)
      as (ks & vs & Hvs & Hks & _ & Hzip & _).
    by exists ks, vs.
  - apply (Hfetched
             (removelast (events (_firebase_prolific_run 10
                                    [PyObj 10; PyObj 11] Sim.kwargs
                                    Demo.campaign_world)))
             "autora" (PyObj 1) Demo.observations).
    vm_compute; reflexivity.
Defined.

(** C4.  A run of the host-only runner calls no operation of the
    recruiter.  Its events are those before the loop, then ticks that
    each read a status other than finished and slept, then a last tick;
    the run returns exactly when that last tick read finished and
    fetched, and then it returns the fetched values in the ascending
    order of their keys; a last tick that reads finished always
    fetches.  Once the run returns, more fuel changes nothing. *)
Theorem host_only_run_returns_on_first_finished {W : Type} `{!Collab W}
    (fuel : nat) (conditions : list pyval) (kwargs : pydict) (w : W) :
  Forall (λ e, ¬ is_recruiter_call e)
    (events (_firebase_run fuel conditions kwargs w)) ∧
  (∃ pre ticks final,
     events (_firebase_run fuel conditions kwargs w) =
       pre ++ concat ticks ++ final ∧
     Forall (λ e, ¬ is_poll e) pre ∧
     Forall host_continuing_tick ticks ∧
     (∀ vs,
        res (_firebase_run fuel conditions kwargs w) = Ret vs ↔
        ∃ observation,
          host_completing_tick final (Done observation) ∧
          observation_list observation = Ok vs) ∧
     (∀ ns creds tm h rest,
        final = CheckFirebaseStatus ns creds tm (Done h) :: rest →
        py_eq_str h "finished" = true →
        ∃ r, host_completing_tick final r)) ∧
  (∀ observation vs,
     observation_list observation = Ok vs →
     ∃ ks,
       Sorted String.le ks ∧ ks ≡ₚ keys observation ∧
       Forall2 (λ k v, (k, v) ∈ observation) ks vs) ∧
  (∀ vs fuel',
     res (_firebase_run fuel conditions kwargs w) = Ret vs →
     (fuel ≤ fuel')%nat →
     _firebase_run fuel' conditions kwargs w =
     _firebase_run fuel conditions kwargs w).
Proof.
  split_and!.
  - eapply Forall_impl; [apply _firebase_run_emits|]. by intros e [He _].
  - destruct (host_run_shape fuel conditions kwargs w)
      as (pre & ticks & final & Hev & Hpre & Hticks & Hfinal).
    exists pre, ticks, final. split_and!; [done | | done | |].
    + eapply Forall_impl; [apply Hpre|]. simpl. tauto.
    + intros vs.
      apply (final_tick_returns host_completing_tick host_failing_tick);
        auto using host_failing_tick_no_fetch,
          host_completing_tick_ends_with_fetch.
    + intros ns creds tm h rest Hf Hfin.
      destruct (res (_firebase_run fuel conditions kwargs w))
        as [vs'|e|]; simpl in Hfinal.
      * destruct Hfinal as (obs & Hc & _). by exists (Done obs).
      * destruct Hfinal as [[_ Hnf]|(msg & Hc & _)].
        -- apply Hnf in Hf. congruence.
        -- by exists (Failed msg).
      * by rewrite Hf in Hfinal.
  - apply observation_list_sorted.
  - intros vs fuel' Hres Hle. apply _firebase_run_mono; [|done].
    by rewrite Hres.
Qed.

Lemma host_only_run_returns_on_first_finished_witness :
  ∃ pre ticks final observation,
    events (_firebase_run 10 [PyObj 10; PyObj 11] Sim.kwargs Demo.host_world) =
      pre ++ concat ticks ++ final ∧
    Forall host_continuing_tick ticks ∧
    host_completing_tick final (Done observation) ∧
    observation_list observation = Ok [PyObj 1; PyObj 2].
Proof.
  destruct (host_only_run_returns_on_first_finished 10 [PyObj 10; PyObj 11]
              Sim.kwargs Demo.host_world)
    as (_ & (pre & ticks & final & Hev & _ & Hticks & Hret & _) & _).
  assert (res (_firebase_run 10 [PyObj 10; PyObj 11] Sim.kwargs
                 Demo.host_world) = Ret [PyObj 1; PyObj 2])
    as Hres by (vm_compute; reflexivity).
  apply Hret in Hres as (observation & Hfinal & Hvs).
  by exists pre, ticks, final, observation.
Defined.

(** C5.  In a run of the combined runner, for any batch of conditions,
    the campaign is created once (as the second call of the run) with as
    many places as there are conditions, and every poll of the host
    status passes the time-out obtained by multiplying the
    ["maximum_allowed_time"] of the reply to that creation by 60. *)
Theorem campaign_sized_and_time_out_derived {W : Type} `{!Collab W}
    (fuel : nat) (conditions : list pyval) (kwargs : pydict) (w : W) :
  (∀ i name desc url ct tok places code r,
     events (_firebase_prolific_run fuel conditions kwargs w) !! i =
       Some (SetupStudy name desc url ct tok places code r) →
     i = 1%nat ∧ places = PyInt (Z.of_nat (length conditions))) ∧
  (∀ ns creds tm r,
     CheckFirebaseStatus ns creds tm r
       ∈ events (_firebase_prolific_run fuel conditions kwargs w) →
     ∃ name desc url ct tok places code d maximum_allowed_time,
       events (_firebase_prolific_run fuel conditions kwargs w) !! 1%nat =
         Some (SetupStudy name desc url ct tok places code (Done d)) ∧
       d !! "maximum_allowed_time" = Some maximum_allowed_time ∧
       py_mul maximum_allowed_time (PyInt 60) = Ok tm).
Proof.
  unfold _firebase_prolific_run. rewrite events_bind.
  destruct (res (setup conditions kwargs w)) as [l|e|] eqn:Hres.
  - destruct (setup_Ret conditions kwargs w l Hres)
      as (creds' & name' & desc' & url' & ct' & tok' & code' & mat & Hev
          & Hmat & Hmul & Hid).
    pose proof (emits_while (tick_event l) (tick kwargs l)
                  (tick_emits kwargs l) fuel None
                  (world (setup conditions kwargs w))) as Hloop.
    rewrite Hev. split.
    + intros i name desc url ct tok places code r.
      destruct i as [|[|i]]; simpl; [done | by intros [= <- <- <- <- <- <- <- <-] |].
      intros Hin%list_elem_of_lookup_2.
      eapply Forall_forall in Hloop; [|done]. done.
    + intros ns creds tm r [Heq|[Heq|Hin]%elem_of_cons]%elem_of_cons;
        [done | done |].
      eapply Forall_forall in Hloop; [|done]. destruct Hloop as [_ ->].
      simpl. by exists name', desc', url', ct', tok',
        (PyInt (Z.of_nat (length conditions))), code', (prolific_dict l), mat.
  - rewrite app_nil_r. split.
    + intros i name desc url ct tok places code r Hi.
      by apply setup_events_at in Hi.
    + intros ns creds tm r Hin.
      pose proof (setup_emits conditions kwargs w) as Hsetup.
      eapply Forall_forall in Hsetup; [|done]. done.
  - rewrite app_nil_r. split.
    + intros i name desc url ct tok places code r Hi.
      by apply setup_events_at in Hi.
    + intros ns creds tm r Hin.
      pose proof (setup_emits conditions kwargs w) as Hsetup.
      eapply Forall_forall in Hsetup; [|done]. done.
Qed.

Lemma campaign_sized_and_time_out_derived_witness :
  ∃ d maximum_allowed_time,
    events (_firebase_prolific_run 10 [PyObj 10; PyObj 11] Sim.kwargs
              Demo.campaign_world) !! 1%nat =
      Some (SetupStudy (PyStr "study") (PyStr "description")
              (PyStr "https://example.org") (PyInt 5) (PyStr "token")
              (PyInt 2) (PyStr "code") (Done d)) ∧
    d !! "maximum_allowed_time" = Some maximum_allowed_time ∧
    py_mul maximum_allowed_time (PyInt 60) = Ok (PyInt 420).
Proof.
  destruct (campaign_sized_and_time_out_derived 10 [PyObj 10; PyObj 11]
              Sim.kwargs Demo.campaign_world) as [_ Hpoll].
  destruct (Hpoll "autora" (PyObj 1) (PyInt 420) (Done (PyStr "available")))
    as (name & desc & url & ct & tok & places & code & d & mat & Hev & Hd & Hm).
  { vm_compute. apply list_elem_of_In. right. right. left. reflexivity. }
  exists d, mat. split_and!; [|done|done].
  rewrite Hev. revert Hev. vm_compute. by intros [= <- <- <- <- <- <- <- <-].
Defined.

(** C6, as stated, fails: two ticks that read the same host status and
    the same campaign status, available and UNPUBLISHED, of which one
    publishes the campaign and the other issues nothing: the reply it
    read has no submission counters, and the tick raises when it
    compares them, before it comes to the statuses. *)
Lemma same_statuses_different_actions :
  snapshot (events (tick Sim.kwargs Demo.demo_locals None Demo.unpublished)) =
    Some (PyStr "available", Sim.status "UNPUBLISHED" 0 2) ∧
  snapshot (events (tick Sim.kwargs Demo.demo_locals None Demo.uncounted)) =
    Some (PyStr "available", list_to_map [("status", PyStr "UNPUBLISHED")]) ∧
  Sim.status "UNPUBLISHED" 0 2 !! "status" = Some (PyStr "UNPUBLISHED") ∧
  (list_to_map [("status", PyStr "UNPUBLISHED")] : pydict) !! "status" =
    Some (PyStr "UNPUBLISHED") ∧
  recruiter_actions
    (events (tick Sim.kwargs Demo.demo_locals None Demo.unpublished)) =
    [Publish] ∧
  recruiter_actions
    (events (tick Sim.kwargs Demo.demo_locals None Demo.uncounted)) = [] ∧
  res (tick Sim.kwargs Demo.demo_locals None Demo.uncounted) =
    Raise (KeyError "number_of_submissions").
Proof. vm_compute. split_and!; reflexivity. Qed.

(** C6, amended.  Among the ticks whose reply from the recruiter has
    submission counters that can be compared, the recruiter actions of
    a tick are a function of the host status and the campaign status it
    read: two such ticks, of any runs, in any worlds, with any
    configuration and any value carried over from earlier ticks, that
    read the same pair issue the same actions. *)
Theorem tick_actions_depend_on_statuses_only
    {W1 W2 : Type} `{!Collab W1, !Collab W2}
    (kwargs1 kwargs2 : pydict) (l1 l2 : locals)
    (carried1 carried2 : option pydict) (w1 : W1) (w2 : W2)
    (h : pyval) (cp1 cp2 : pydict) (c1 c2 : bool) :
  snapshot (events (tick kwargs1 l1 carried1 w1)) = Some (h, cp1) →
  snapshot (events (tick kwargs2 l2 carried2 w2)) = Some (h, cp2) →
  cp1 !! "status" = cp2 !! "status" →
  completion h cp1 = Ok c1 →
  completion h cp2 = Ok c2 →
  recruiter_actions (events (tick kwargs1 l1 carried1 w1)) =
  recruiter_actions (events (tick kwargs2 l2 carried2 w2)).
Proof.
  intros Hsnap1 Hsnap2 Hstatus Hc1 Hc2.
  rewrite (tick_actions kwargs1 l1 carried1 w1 h cp1 c1) by done.
  rewrite (tick_actions kwargs2 l2 carried2 w2 h cp2 c2) by done.
  by rewrite Hstatus.
Qed.

Lemma tick_actions_depend_on_statuses_only_witness :
  recruiter_actions
    (events (tick Sim.kwargs Demo.demo_locals None Demo.unpublished)) =
  recruiter_actions
    (events (tick (delete "sleep_time" Sim.kwargs) Demo.demo_locals
               (Some (Sim.status "PAUSED" 0 2)) Demo.unpublished_later)).
Proof.
  apply (tick_actions_depend_on_statuses_only _ _ _ _ _ _ _ _
           (PyStr "available") (Sim.status "UNPUBLISHED" 0 2)
           (Sim.status "UNPUBLISHED" 1 3) false false);
    vm_compute; reflexivity.
Defined.

(** C7.  A run of either runner keeps the discipline of one fetch.  No
    fetch is made before the loop or in a tick that fell through to the
    next one, and on none of those ticks did the completion condition
    hold; the last tick either makes no fetch, and then the run has
    fetched nothing and does not return, or it is the tick that found
    the completion condition to hold, and then the run has fetched
    exactly once.  So the observations are fetched at most once, and
    exactly once when the run returns.  And the fetch is made on the
    first tick on which the completion condition holds: wherever in the
    run the host has been read finished (host-only), or a snapshot on
    which completion holds has been read (combined), the fetch follows
    at once and ends the run. *)
Theorem observations_fetched_once {W : Type} `{!Collab W}
    (fuel : nat) (conditions : list pyval) (kwargs : pydict) (w : W) :
  (fetch_discipline host_continuing_tick host_completing_tick
     (res (_firebase_run fuel conditions kwargs w))
     (events (_firebase_run fuel conditions kwargs w)) ∧
   (fetches (events (_firebase_run fuel conditions kwargs w)) ≤ 1)%nat ∧
   (∀ vs, res (_firebase_run fuel conditions kwargs w) = Ret vs →
          fetches (events (_firebase_run fuel conditions kwargs w)) = 1%nat) ∧
   fetch_follows opens_finished 1
     (res (_firebase_run fuel conditions kwargs w))
     (events (_firebase_run fuel conditions kwargs w))) ∧
  (fetch_discipline sleeping_tick completing_tick
     (res (_firebase_prolific_run fuel conditions kwargs w))
     (events (_firebase_prolific_run fuel conditions kwargs w)) ∧
   (fetches (events (_firebase_prolific_run fuel conditions kwargs w)) ≤ 1)%nat ∧
   (∀ vs, res (_firebase_prolific_run fuel conditions kwargs w) = Ret vs →
          fetches (events (_firebase_prolific_run fuel conditions kwargs w)) =
          1%nat) ∧
   fetch_follows opens_complete 2
     (res (_firebase_prolific_run fuel conditions kwargs w))
     (events (_firebase_prolific_run fuel conditions kwargs w))).
Proof.
  assert (∀ continuing completing signal n r evs,
            fetch_discipline continuing completing r evs →
            fetch_follows signal n r evs →
            fetch_discipline continuing completing r evs ∧
            (fetches evs ≤ 1)%nat ∧
            (∀ vs, r = Ret vs → fetches evs = 1%nat) ∧
            fetch_follows signal n r evs) as Hcount.
  { intros continuing completing signal n r evs Hd Hf.
    split; [done|]. split_and!; [| |done].
    - destruct Hd as (_ & _ & _ & _ & _ & _ & [(_ & -> & _)|[_ ->]]); lia.
    - destruct Hd as (_ & _ & _ & _ & _ & _ & [(_ & _ & Hne)|[_ ->]]);
        [|done].
      intros vs Hvs. by destruct (Hne vs). }
  split; apply Hcount.
  - destruct (host_run_shape fuel conditions kwargs w)
      as (pre & ticks & final & -> & Hpre & Hticks & Hfinal).
    apply (fetch_discipline_intro _ _ host_failing_tick);
      auto using host_continuing_tick_no_fetch, host_failing_tick_no_fetch,
        host_completing_tick_ends_with_fetch.
    eapply Forall_impl; [apply Hpre|]. simpl. tauto.
  - apply _firebase_run_fetch_follows.
  - destruct (combined_run_ticks fuel conditions kwargs w)
      as (ticks & final & -> & Hticks & Hfinal).
    apply (fetch_discipline_intro _ _ failing_tick);
      auto using sleeping_tick_no_fetch, failing_tick_no_fetch,
        completing_tick_ends_with_fetch.
    eapply Forall_impl; [apply setup_emits|]. intros [] ?; simpl in *; tauto.
  - apply _firebase_prolific_run_fetch_follows.
Qed.

Lemma observations_fetched_once_witness :
  fetches (events (_firebase_run 10 [PyObj 10; PyObj 11] Sim.kwargs
                     Demo.host_world)) = 1%nat ∧
  fetches (events (_firebase_prolific_run 10 [PyObj 10; PyObj 11] Sim.kwargs
                     Demo.campaign_world)) = 1%nat.
Proof.
  split.
  - apply (observations_fetched_once 10 [PyObj 10; PyObj 11] Sim.kwargs
             Demo.host_world) with (vs := [PyObj 1; PyObj 2]).
    vm_compute; reflexivity.
  - apply (observations_fetched_once 10 [PyObj 10; PyObj 11] Sim.kwargs
             Demo.campaign_world) with (vs := [PyObj 1; PyObj 10; PyObj 2]).
    vm_compute; reflexivity.
Defined.

(** C8, as stated, fails: a run of two conditions that fetches three
    observations, and a run of one condition that fetches two, return
    them; nothing is raised. *)
Lemma count_mismatch_is_not_raised :
  (last (events (_firebase_prolific_run 10 [PyObj 10; PyObj 11] Sim.kwargs
                   Demo.campaign_world)) =
     Some (GetObservations "autora" (PyObj 1) (Done Demo.observations)) ∧
   length Demo.observations ≠ length [PyObj 10; PyObj 11] ∧
   res (_firebase_prolific_run 10 [PyObj 10; PyObj 11] Sim.kwargs
          Demo.campaign_world) = Ret [PyObj 1; PyObj 10; PyObj 2]) ∧
  (last (events (_firebase_run 10 [PyObj 10] Sim.kwargs Demo.host_world)) =
     Some (GetObservations "autora" (PyObj 1)
             (Done [("B", PyObj 2); ("A", PyObj 1)])) ∧
   length [("B", PyObj 2); ("A", PyObj 1)] ≠ length [PyObj 10] ∧
   res (_firebase_run 10 [PyObj 10] Sim.kwargs Demo.host_world) =
     Ret [PyObj 1; PyObj 2]).
Proof. vm_compute. split_and!; (reflexivity || discriminate). Qed.

(** C8, amended.  When a run of either runner has fetched a mapping, it
    returns the values of that mapping in the order of their keys, as
    many as the mapping has entries, whatever the number of conditions
    submitted: the two numbers are not compared and no exception is
    raised over them. *)
Theorem fetched_observations_are_returned_uncounted {W : Type} `{!Collab W}
    (fuel : nat) (conditions : list pyval) (kwargs : pydict) (w : W)
    (pre : list event) (ns : string) (creds : pyval) (observation : pyodict) :
  (events (_firebase_run fuel conditions kwargs w) =
     pre ++ [GetObservations ns creds (Done observation)] →
   ∃ vs,
     res (_firebase_run fuel conditions kwargs w) = Ret vs ∧
     observation_list observation = Ok vs ∧
     length vs = length observation) ∧
  (events (_firebase_prolific_run fuel conditions kwargs w) =
     pre ++ [GetObservations ns creds (Done observation)] →
   ∃ vs,
     res (_firebase_prolific_run fuel conditions kwargs w) = Ret vs ∧
     observation_list observation = Ok vs ∧
     length vs = length observation).
Proof.
  split.
  - intros Hev.
    destruct (host_run_shape fuel conditions kwargs w)
      as (pre' & ticks & final & Hev' & Hpre & Hticks & Hfinal).
    rewrite Hev in Hev'.
    apply (fetched_is_returned host_continuing_tick host_completing_tick
             host_failing_tick host_continuing_tick_no_fetch
             host_failing_tick_no_fetch host_completing_tick_ends_with_fetch
             _ pre' ticks final pre ns creds); [| done | done | done].
    eapply Forall_impl; [apply Hpre|]. simpl. tauto.
  - intros Hev.
    destruct (combined_run_shape fuel conditions kwargs w)
      as (ticks & final & Hev' & Hticks & Hfinal).
    rewrite Hev in Hev'.
    apply (fetched_is_returned continuing_tick completing_tick failing_tick
             continuing_tick_no_fetch failing_tick_no_fetch
             completing_tick_ends_with_fetch
             _ (events (setup conditions kwargs w)) ticks final pre ns creds);
      [| done | done | done].
    eapply Forall_impl; [apply setup_emits|]. intros [] ?; simpl in *; tauto.
Qed.

Lemma fetched_observations_are_returned_uncounted_witness :
  ∃ vs,
    res (_firebase_prolific_run 10 [PyObj 10; PyObj 11] Sim.kwargs
           Demo.campaign_world) = Ret vs ∧
    observation_list Demo.observations = Ok vs ∧
    length vs = 3%nat.
Proof.
  apply (fetched_observations_are_returned_uncounted 10 [PyObj 10; PyObj 11]
           Sim.kwargs Demo.campaign_world
           (removelast (events (_firebase_prolific_run 10 [PyObj 10; PyObj 11]
                                  Sim.kwargs Demo.campaign_world)))
           "autora" (PyObj 1) Demo.observations).
  vm_compute; reflexivity.
Defined.

(** C9.  The setup of the combined runner only succeeds with a campaign
    dict that is non-empty, hence true: an empty one fails at the lookup
    of ["maximum_allowed_time"].  With such a dict every tick assigns
    the recruiter status before it falls through to the branches that
    read it, and no run ends by reading it unassigned. *)
Theorem recruiter_status_is_assigned_before_use {W : Type} `{!Collab W}
    (fuel : nat) (conditions : list pyval) (kwargs : pydict) (w : W) :
  (∀ l,
     res (setup conditions kwargs w) = Ret l →
     prolific_dict l ≠ ∅ ∧ dict_truthy (prolific_dict l) = true) ∧
  (∀ name desc url ct tok places code d,
     SetupStudy name desc url ct tok places code (Done d)
       ∈ events (setup conditions kwargs w) →
     dict_truthy d = false →
     res (setup conditions kwargs w) = Raise (KeyError "maximum_allowed_time")) ∧
  (∀ l h carried w' x,
     dict_truthy (prolific_dict l) = true →
     res (poll_prolific kwargs l h carried w') = Ret (Continue x) →
     ∃ cp, x = Some cp) ∧
  (∀ name,
     res (_firebase_prolific_run fuel conditions kwargs w) ≠
     Raise (UnboundLocalError name)).
Proof.
  split_and!.
  - intros l Hl. pose proof (setup_post conditions kwargs w) as Hpost.
    rewrite Hl in Hpost. split; [|done].
    unfold dict_truthy in Hpost. by apply bool_decide_eq_true in Hpost.
  - intros name desc url ct tok places code d.
    unfold setup, send_conditions, setup_study.
    exec_cases; simpl; rewrite ?elem_of_cons, ?elem_of_nil;
      intros Hin Hd; unfold dict_truthy in Hd;
      apply bool_decide_eq_false, dec_stable in Hd; subst d;
      destruct_or?; try done;
      match goal with
      | H : SetupStudy _ _ _ _ _ _ _ _ = _ |- _ =>
          injection H; intros; subst; by rewrite lookup_empty in *
      end.
  - intros l h carried w' x Htruthy. unfold poll_prolific, check_prolific_status.
    rewrite Htruthy.
    destruct (kwargs !! "prolific_token") as [tok|] eqn:Htok; exec; [|done].
    destruct (ext_check_prolific_status (study_id l) tok w')
      as [[cp|msg] w1] eqn:Hcp; exec; [|done].
    destruct (completion h cp) as [[]|e] eqn:Hc; exec; simpl; [| |done].
    + destruct (kwargs !! "firebase_credentials") as [creds|] eqn:Hcreds; exec;
        [|done].
      destruct (collect_spec (S:=option pydict) creds w1) as (r & _ & Hres).
      rewrite Hres. pose proof (collected_cases (S:=option pydict) r) as Hr.
      destruct r as [obs|msg]; [by destruct Hr as (vs & _ & ->)|].
      by rewrite Hr.
    + intros [= <-]. eauto.
  - intros name Hres.
    assert (post (λ _, True) bound True
              (_firebase_prolific_run fuel conditions kwargs)) as Hpost.
    { unfold _firebase_prolific_run.
      eapply (post_bind (λ l, dict_truthy (prolific_dict l) = true)).
      - eapply post_impl; [| | |apply setup_post]; done.
      - intros l Hl. apply (post_while (λ _, True)); [|done].
        intros cp0 _. eapply post_impl; [| | |by apply tick_post]; try done.
        by intros []. }
    specialize (Hpost w). rewrite Hres in Hpost. by apply (Hpost name).
Qed.

Lemma recruiter_status_is_assigned_before_use_witness :
  prolific_dict Demo.demo_locals ≠ ∅ ∧
  dict_truthy (prolific_dict Demo.demo_locals) = true.
Proof.
  apply (recruiter_status_is_assigned_before_use 0 [PyObj 10; PyObj 11]
           Sim.kwargs Demo.campaign_world).
  vm_compute; reflexivity.
Defined.

(** The hazard the guard would leave open: with an empty campaign dict
    the first tick of a run whose host has a free slot reads the
    recruiter status unassigned. *)
Example unassigned_status_with_empty_dict :
  res (tick Sim.kwargs Demo.empty_locals None Demo.unpublished) =
  Raise (UnboundLocalError "check_prolific").
Proof. vm_compute; reflexivity. Qed.

(** C10.  Every call to the experimentation manager that a run of either
    runner makes, whatever the configuration, is given the namespace
    ["autora"]. *)
Theorem host_calls_use_the_autora_namespace {W : Type} `{!Collab W}
    (fuel : nat) (conditions : list pyval) (kwargs : pydict) (w : W) :
  Forall (λ e, ∀ ns, host_call_namespace e = Some ns → ns = "autora")
    (events (_firebase_run fuel conditions kwargs w)) ∧
  Forall (λ e, ∀ ns, host_call_namespace e = Some ns → ns = "autora")
    (events (_firebase_prolific_run fuel conditions kwargs w)).
Proof.
  split.
  - eapply Forall_impl; [apply _firebase_run_emits|]. by intros e [_ He].
  - unfold _firebase_prolific_run. rewrite events_bind. apply Forall_app. split.
    + eapply Forall_impl; [apply setup_emits|].
      intros [] He ns' [=]; simpl in He; by destruct_and?; subst.
    + destruct (res (setup conditions kwargs w)) as [l|e|]; [|done|done].
      eapply Forall_impl; [apply emits_while; intros; apply tick_emits|].
      intros [] He ns' [=]; simpl in He; by destruct_and?; subst.
Qed.

Lemma host_calls_use_the_autora_namespace_witness :
  Forall (λ e, ∀ ns, host_call_namespace e = Some ns → ns = "autora")
    (events (_firebase_prolific_run 10 [PyObj 10; PyObj 11] Sim.kwargs
               Demo.campaign_world)).
Proof.
  apply (host_calls_use_the_autora_namespace 10 [PyObj 10; PyObj 11]
           Sim.kwargs Demo.campaign_world).
Defined.

(** * Further properties of the runners *)

(** ** The factories *)

Section factories.
Context {W : Type} `{!Collab W}.

Lemma spread_None {A} (kwargs : pydict) (body : M W A) (w : W) :
  kwargs !! "conditions" = None → spread kwargs body w = body w.
Proof. intros Hc. unfold spread. by rewrite Hc. Qed.

Lemma spread_Some {A} (kwargs : pydict) (body : M W A) (w : W) :
  is_Some (kwargs !! "conditions") →
  spread kwargs body w = Out (Raise TypeError) w [].
Proof. intros [v Hc]. unfold spread. by rewrite Hc. Qed.

(** A runner either runs the function it was built for, or raises
    before it has done anything. *)
Lemma spread_cases {A} (kwargs : pydict) (body : M W A) (w : W) :
  spread kwargs body w = body w ∨
  spread kwargs body w = Out (Raise TypeError) w [].
Proof.
  destruct (kwargs !! "conditions") as [v|] eqn:Hc.
  - right. apply spread_Some. by exists v.
  - left. by apply spread_None.
Qed.

Lemma fails_fast_refused {A} (w : W) :
  fails_fast (Out (A:=A) (Raise TypeError) w []).
Proof. left. split; [by apply Forall_nil | done]. Qed.

End factories.

(** Splits a statement about a runner into the case of the run and the
    case of the refusal. *)
Ltac run_or_refusal :=
  unfold firebase_runner, firebase_prolific_runner;
  repeat match goal with
  | |- context [spread ?kwargs ?body ?w] =>
      destruct (spread_cases kwargs body w) as [-> | ->]
  end.

(** ** The configuration *)

Section configuration.
Context {W : Type} `{!Collab W}.
Local Open Scope run_scope.

Lemma getitem_agree (kwargs kwargs' : pydict) (key : string) :
  kwargs !! key = kwargs' !! key →
  getitem (W:=W) kwargs key = getitem kwargs' key.
Proof. intros Hkey. unfold getitem, dict_getitem. by rewrite Hkey. Qed.

Lemma bind_ext {A B} (m : M W A) (k k' : A → M W B) (w : W) :
  (∀ a w', k a w' = k' a w') → bind m k w = bind m k' w.
Proof.
  intros Hk. unfold bind. destruct (m w) as [[a|e|] w1 e1]; [|done|done].
  by rewrite Hk.
Qed.

Lemma while_true_ext {S A} (body body' : S → M W (step S A)) (fuel : nat)
    (s : S) (w : W) :
  (∀ s' w', body s' w' = body' s' w') →
  while_true fuel body s w = while_true fuel body' s w.
Proof.
  intros Hbody. revert s w. induction fuel as [|fuel IH]; intros s w; [done|].
  simpl. unfold bind. rewrite Hbody.
  destruct (body' s w) as [[[s'|a]|e|] w1 e1]; [|done|done|done].
  by rewrite IH.
Qed.

Lemma tick_agree (kwargs kwargs' : pydict) (l : locals)
    (cp0 : option pydict) (w : W) :
  agree_on combined_keys kwargs kwargs' →
  tick kwargs l cp0 w = tick kwargs' l cp0 w.
Proof.
  intros Hagree. unfold agree_on, combined_keys, study_keys in Hagree.
  simpl in Hagree. repeat (apply Forall_cons in Hagree as [? Hagree]).
  unfold tick, poll_prolific, carry_on, reconcile.
  by rewrite (getitem_agree kwargs kwargs' "firebase_credentials"),
    (getitem_agree kwargs kwargs' "prolific_token"),
    (getitem_agree kwargs kwargs' "sleep_time").
Qed.

Lemma setup_agree (conditions : list pyval) (kwargs kwargs' : pydict) (w : W) :
  agree_on combined_keys kwargs kwargs' →
  setup conditions kwargs w = setup conditions kwargs' w.
Proof.
  intros Hagree. unfold agree_on, combined_keys, study_keys in Hagree.
  simpl in Hagree. repeat (apply Forall_cons in Hagree as [? Hagree]).
  unfold setup.
  by rewrite (getitem_agree kwargs kwargs' "firebase_credentials"),
    (getitem_agree kwargs kwargs' "study_name"),
    (getitem_agree kwargs kwargs' "study_description"),
    (getitem_agree kwargs kwargs' "study_url"),
    (getitem_agree kwargs kwargs' "study_completion_time"),
    (getitem_agree kwargs kwargs' "prolific_token"),
    (getitem_agree kwargs kwargs' "completion_code").
Qed.

Lemma agree_on_insert (keys : list string) (kwargs : pydict) (key : string)
    (v : pyval) :
  key ∉ keys → agree_on keys (<[key:=v]> kwargs) kwargs.
Proof.
  intros Hkey. apply Forall_forall. intros key' Hin.
  apply lookup_insert_ne. by intros ->.
Qed.

Lemma spread_agree {A} (kwargs kwargs' : pydict) (body body' : M W A)
    (w : W) :
  (kwargs !! "conditions" = None ↔ kwargs' !! "conditions" = None) →
  body w = body' w →
  spread kwargs body w = spread kwargs' body' w.
Proof.
  intros Hc Hbody. unfold spread.
  destruct (kwargs !! "conditions") as [v|], (kwargs' !! "conditions") as [v'|];
    try done.
  - destruct Hc as [_ Hc]. by specialize (Hc eq_refl).
  - destruct Hc as [Hc _]. by specialize (Hc eq_refl).
Qed.

Lemma insert_keeps_conditions (kwargs : pydict) (key : string) (v : pyval) :
  key ≠ "conditions" →
  <[key:=v]> kwargs !! "conditions" = None ↔ kwargs !! "conditions" = None.
Proof. intros Hkey. by rewrite lookup_insert_ne. Qed.

(** X1.  The runner that [firebase_prolific_runner] builds reads eight
    keys of its configuration; of any other key only ["conditions"]
    matters, and only by being there.  Two configurations that agree on
    the eight keys, and of which both or neither have ["conditions"],
    give the same run, on every batch and in every world; so a value
    under any further key, ["time_out"] among them, changes nothing.  A
    configuration that has the key ["conditions"] is refused: the run
    raises [TypeError] and has called nothing. *)
Theorem combined_runner_reads_only_its_keys (fuel : nat)
    (kwargs kwargs' : pydict) (conditions : list pyval) (w : W) :
  (agree_on combined_keys kwargs kwargs' →
   (kwargs !! "conditions" = None ↔ kwargs' !! "conditions" = None) →
   firebase_prolific_runner fuel kwargs conditions w =
   firebase_prolific_runner fuel kwargs' conditions w) ∧
  (∀ key v,
     key ∉ combined_keys → key ≠ "conditions" →
     firebase_prolific_runner fuel (<[key:=v]> kwargs) conditions w =
     firebase_prolific_runner fuel kwargs conditions w) ∧
  (is_Some (kwargs !! "conditions") →
   firebase_prolific_runner fuel kwargs conditions w =
   Out (Raise TypeError) w []).
Proof.
  assert (∀ k1 k2,
            agree_on combined_keys k1 k2 →
            (k1 !! "conditions" = None ↔ k2 !! "conditions" = None) →
            firebase_prolific_runner fuel k1 conditions w =
            firebase_prolific_runner fuel k2 conditions w) as Hframe.
  { intros k1 k2 Hagree Hc.
    unfold firebase_prolific_runner. apply spread_agree; [done|].
    unfold _firebase_prolific_run.
    rewrite (bind_ext _ _ (λ l, while_true fuel (tick k2 l) None)).
    - unfold bind. by rewrite (setup_agree conditions k1 k2).
    - intros l w'. apply while_true_ext. intros cp0 w''.
      by apply tick_agree. }
  split_and!; [apply Hframe | |].
  - intros key v Hkey Hne.
    apply Hframe; [by apply agree_on_insert | by apply insert_keeps_conditions].
  - apply spread_Some.
Qed.

(** X2.  The runner that [firebase_runner] builds reads three keys of
    its configuration; of any other key only ["conditions"] matters,
    and only by being there.  Two configurations that agree on the
    three keys, and of which both or neither have ["conditions"], give
    the same run; a configuration that has the key ["conditions"] is
    refused: the run raises [TypeError] and has called nothing. *)
Theorem host_runner_reads_only_its_keys (fuel : nat)
    (kwargs kwargs' : pydict) (conditions : list pyval) (w : W) :
  (agree_on host_keys kwargs kwargs' →
   (kwargs !! "conditions" = None ↔ kwargs' !! "conditions" = None) →
   firebase_runner fuel kwargs conditions w =
   firebase_runner fuel kwargs' conditions w) ∧
  (∀ key v,
     key ∉ host_keys → key ≠ "conditions" →
     firebase_runner fuel (<[key:=v]> kwargs) conditions w =
     firebase_runner fuel kwargs conditions w) ∧
  (is_Some (kwargs !! "conditions") →
   firebase_runner fuel kwargs conditions w = Out (Raise TypeError) w []).
Proof.
  assert (∀ k1 k2,
            agree_on host_keys k1 k2 →
            (k1 !! "conditions" = None ↔ k2 !! "conditions" = None) →
            firebase_runner fuel k1 conditions w =
            firebase_runner fuel k2 conditions w) as Hframe.
  { intros k1 k2 Hagree Hc. unfold agree_on, host_keys in Hagree.
    repeat (apply Forall_cons in Hagree as [? Hagree]).
    unfold firebase_runner. apply spread_agree; [done|].
    unfold _firebase_run.
    by rewrite (getitem_agree k1 k2 "firebase_credentials"),
      (getitem_agree k1 k2 "time_out"), (getitem_agree k1 k2 "sleep_time"). }
  split_and!; [apply Hframe | |].
  - intros key v Hkey Hne.
    apply Hframe; [by apply agree_on_insert | by apply insert_keeps_conditions].
  - apply spread_Some.
Qed.

(** X3.  The host-only runner, given a configuration it does not
    refuse for the key ["conditions"], looks up its three keys before
    it calls anything: when one is missing it raises the [KeyError] of
    the first one missing, and no condition has been sent. *)
Theorem host_runner_checks_configuration_first (fuel : nat) (kwargs : pydict)
    (conditions : list pyval) (w : W) (key : string) :
  kwargs !! "conditions" = None →
  first_missing kwargs host_keys = Some key →
  firebase_runner fuel kwargs conditions w = Out (Raise (KeyError key)) w [].
Proof.
  intros Hc. unfold firebase_runner. rewrite spread_None by done.
  unfold _firebase_run, host_keys. simpl.
  destruct (kwargs !! "firebase_credentials") eqn:?; exec;
    [|by intros [= <-]].
  destruct (kwargs !! "time_out") eqn:?; exec; [|by intros [= <-]].
  destruct (kwargs !! "sleep_time") eqn:?; exec; [done | by intros [= <-]].
Qed.


End configuration.

Lemma combined_runner_reads_only_its_keys_witness :
  firebase_prolific_runner 10 (<["time_out":=PyInt 1]> Sim.kwargs)
    [PyObj 10; PyObj 11] Demo.campaign_world =
  firebase_prolific_runner 10 Sim.kwargs [PyObj 10; PyObj 11]
    Demo.campaign_world ∧
  firebase_prolific_runner 10 (<["conditions":=PyNone]> Sim.kwargs)
    [PyObj 10; PyObj 11] Demo.campaign_world =
  Out (Raise TypeError) Demo.campaign_world [].
Proof.
  split.
  - apply (combined_runner_reads_only_its_keys 10 Sim.kwargs Sim.kwargs);
      [|done].
    unfold combined_keys, study_keys. simpl.
    rewrite !elem_of_cons, elem_of_nil. intros ?; destruct_or?; done.
  - apply (combined_runner_reads_only_its_keys 10
             (<["conditions":=PyNone]> Sim.kwargs) Sim.kwargs).
    exists PyNone. vm_compute; reflexivity.
Defined.

Lemma host_runner_reads_only_its_keys_witness :
  firebase_runner 10 (<["prolific_token":=PyNone]> Sim.kwargs)
    [PyObj 10] Demo.host_world =
  firebase_runner 10 Sim.kwargs [PyObj 10] Demo.host_world ∧
  firebase_runner 10 (<["conditions":=PyNone]> Sim.kwargs)
    [PyObj 10] Demo.host_world =
  Out (Raise TypeError) Demo.host_world [].
Proof.
  split.
  - apply (host_runner_reads_only_its_keys 10 Sim.kwargs Sim.kwargs); [|done].
    unfold host_keys. rewrite !elem_of_cons, elem_of_nil.
    intros ?; destruct_or?; done.
  - apply (host_runner_reads_only_its_keys 10
             (<["conditions":=PyNone]> Sim.kwargs) Sim.kwargs).
    exists PyNone. vm_compute; reflexivity.
Defined.

Lemma host_runner_checks_configuration_first_witness :
  firebase_runner 10 (delete "time_out" Sim.kwargs) [PyObj 10]
    Demo.host_world =
  Out (Raise (KeyError "time_out")) Demo.host_world [].
Proof.
  apply host_runner_checks_configuration_first; vm_compute; reflexivity.
Defined.


(** ** Failures of the collaborators *)

Section failures.
Context {W : Type} `{!Collab W}.
Local Open Scope run_scope.

Lemma fails_fast_ret {A} (a : A) (w : W) : fails_fast (ret a w).
Proof. left. split; [by constructor | done]. Qed.

Lemma fails_fast_raise {A} (e : exn) (w : W) :
  own e → fails_fast (raise (A:=A) e w).
Proof.
  intros He. left. split; [by constructor|].
  intros msg [= ->]. by apply (He msg).
Qed.

Lemma fails_fast_lift {A} (o : outcome A) (w : W) :
  (∀ e, o = Err e → own e) → fails_fast (lift o w).
Proof.
  intros Ho. destruct o as [a|e];
    [apply fails_fast_ret | apply fails_fast_raise; auto].
Qed.

Lemma fails_fast_getitem (d : pydict) (key : string) (w : W) :
  fails_fast (getitem d key w).
Proof.
  apply fails_fast_lift. unfold dict_getitem.
  intros e He msg. destruct (d !! key); by simplify_eq.
Qed.

Lemma fails_fast_call {A} (f : W → reply A * W) (log : reply A → event)
    (w : W) :
  (∀ r, failure (log r) = failed r) → fails_fast (call f log w).
Proof.
  intros Hlog. unfold call. destruct (f w) as [[a|msg] w'].
  - left. simpl. split; [|done]. repeat constructor. by rewrite Hlog.
  - right. exists [], (log (Failed msg)), msg. simpl.
    split_and!; [done | by constructor | by rewrite Hlog | done].
Qed.

Lemma fails_fast_bind {A B} (m : M W A) (k : A → M W B) (w : W) :
  fails_fast (m w) → (∀ a w', fails_fast (k a w')) →
  fails_fast (bind m k w).
Proof.
  intros Hm Hk. unfold bind.
  destruct (m w) as [[a|e|] w1 e1] eqn:Hmw; simpl in *.
  - destruct Hm as [[Hok _]|(? & ? & ? & _ & _ & _ & [=])]. simpl in Hok.
    destruct (Hk a w1) as [[Hok' Hres]|(pre & e & msg & Hev & Hpre & He & Hres)].
    + left. simpl. split; [by apply Forall_app | done].
    + right. exists (e1 ++ pre), e, msg. simpl. rewrite Hev.
      split_and!; [by rewrite app_assoc | by apply Forall_app | done | done].
  - destruct Hm as [[Hok Hres]|(pre & e' & msg & Hev & Hpre & He & [= ->])];
      simpl in *.
    + left. split; [done|]. intros msg [= ->]. by destruct (Hres msg).
    + right. by exists pre, e', msg.
  - destruct Hm as [[Hok _]|(? & ? & ? & _ & _ & _ & [=])]. by left.
Qed.

Lemma fails_fast_when (c : bool) (body : M W unit) (w : W) :
  (∀ w', fails_fast (body w')) → fails_fast (when c body w).
Proof. destruct c; [done | intros _; apply fails_fast_ret]. Qed.

Lemma fails_fast_while {S A} (body : S → M W (step S A)) (fuel : nat)
    (s : S) (w : W) :
  (∀ s' w', fails_fast (body s' w')) → fails_fast (while_true fuel body s w).
Proof.
  intros Hbody. revert s w. induction fuel as [|fuel IH]; intros s w; simpl.
  - left. split; [by constructor | done].
  - apply fails_fast_bind; [done|].
    intros [s'|a] w'; [apply IH | apply fails_fast_ret].
Qed.

Lemma completion_Err_own (h : pyval) (cp : pydict) (e : exn) :
  completion h cp = Err e → own e.
Proof.
  unfold completion, dict_getitem, py_ge. intros He msg.
  repeat case_match; simplify_eq; done.
Qed.

Lemma py_mul_Err_own (a b : pyval) (e : exn) : py_mul a b = Err e → own e.
Proof.
  unfold py_mul. intros He msg. repeat case_match; simplify_eq; done.
Qed.

Lemma observation_list_Err_own (observation : pyodict) (e : exn) :
  observation_list observation = Err e → own e.
Proof.
  destruct (observation_list_total observation) as [vs ->]. done.
Qed.

(** Discharges [fails_fast] for a computation built from the operations
    of the runners. *)
Ltac solve_fails_fast :=
  repeat first
    [ apply fails_fast_ret
    | apply fails_fast_getitem
    | apply fails_fast_call; by intros []
    | apply fails_fast_lift;
        eauto using completion_Err_own, py_mul_Err_own, observation_list_Err_own
    | apply fails_fast_when; intros
    | apply fails_fast_bind; [|intros]
    | match goal with
      | |- fails_fast ((if ?c then _ else _) _) => destruct c
      | |- fails_fast ((match ?x with Continue _ => _ | Return _ => _ end) _) =>
          destruct x
      | |- fails_fast (local _ ?v _) =>
          destruct v; [apply fails_fast_ret | by apply fails_fast_raise]
      end ].

Lemma _firebase_run_fails_fast (fuel : nat) (conditions : list pyval)
    (kwargs : pydict) (w : W) :
  fails_fast (_firebase_run fuel conditions kwargs w).
Proof.
  unfold _firebase_run, send_conditions. solve_fails_fast.
  apply fails_fast_while. intros ? ?.
  unfold firebase_tick, collect, check_firebase_status, get_observations, sleep.
  solve_fails_fast.
Qed.

Lemma _firebase_prolific_run_fails_fast (fuel : nat) (conditions : list pyval)
    (kwargs : pydict) (w : W) :
  fails_fast (_firebase_prolific_run fuel conditions kwargs w).
Proof.
  unfold _firebase_prolific_run. apply fails_fast_bind.
  - unfold setup, send_conditions, setup_study. solve_fails_fast.
  - intros l ?. apply fails_fast_while. intros cp0 ?.
    unfold tick, poll_prolific, carry_on, reconcile, prolific_status, collect,
      check_firebase_status, check_prolific_status, get_observations,
      publish_study, start_study, pause_study, sleep.
    solve_fails_fast.
Qed.

Lemma fails_fast_elim {A} (o : out W A) :
  fails_fast o →
  (∀ pre e post msg,
     events o = pre ++ e :: post → failure e = Some msg →
     post = [] ∧ res o = Raise (CollaboratorError msg)) ∧
  (∀ msg,
     res o = Raise (CollaboratorError msg) →
     ∃ pre e, events o = pre ++ [e] ∧ failure e = Some msg).
Proof.
  intros [[Hok Hres]|(pre0 & e0 & msg0 & Hev & Hpre & He & Hres)]; split.
  - intros pre e post msg Hev He. rewrite Hev in Hok.
    apply Forall_app in Hok as [_ [Hok _]%Forall_cons]. congruence.
  - intros msg Hmsg. by destruct (Hres msg).
  - intros pre e post msg Hev' He'. rewrite Hev in Hev'.
    destruct post as [|p post _] using rev_ind.
    + apply app_inj_tail in Hev' as [_ <-]. split; congruence.
    + rewrite app_comm_cons, app_assoc in Hev'.
      apply app_inj_tail in Hev' as [-> _].
      apply Forall_app in Hpre as [_ [Hok _]%Forall_cons]. congruence.
  - intros msg Hmsg. exists pre0, e0. split; congruence.
Qed.

(** X5.  Neither runner catches a failure of a collaborator or calls
    again after one: a call that failed is the last call of the run, and
    the run ends with that failure; and a run only ends with the failure
    of a collaborator when its last call failed with it. *)
Theorem collaborator_failure_ends_the_run (fuel : nat) (kwargs : pydict)
    (conditions : list pyval) (w : W) :
  ((∀ pre e post msg,
      events (firebase_runner fuel kwargs conditions w) = pre ++ e :: post →
      failure e = Some msg →
      post = [] ∧
      res (firebase_runner fuel kwargs conditions w) =
        Raise (CollaboratorError msg)) ∧
   (∀ msg,
      res (firebase_runner fuel kwargs conditions w) =
        Raise (CollaboratorError msg) →
      ∃ pre e,
        events (firebase_runner fuel kwargs conditions w) = pre ++ [e] ∧
        failure e = Some msg)) ∧
  ((∀ pre e post msg,
      events (firebase_prolific_runner fuel kwargs conditions w) =
        pre ++ e :: post →
      failure e = Some msg →
      post = [] ∧
      res (firebase_prolific_runner fuel kwargs conditions w) =
        Raise (CollaboratorError msg)) ∧
   (∀ msg,
      res (firebase_prolific_runner fuel kwargs conditions w) =
        Raise (CollaboratorError msg) →
      ∃ pre e,
        events (firebase_prolific_runner fuel kwargs conditions w) =
          pre ++ [e] ∧
        failure e = Some msg)).
Proof.
  split; apply fails_fast_elim; run_or_refusal;
    auto using _firebase_run_fails_fast, _firebase_prolific_run_fails_fast,
      fails_fast_refused.
Qed.

End failures.

Lemma collaborator_failure_ends_the_run_witness :
  res (firebase_prolific_runner 10 Sim.kwargs [PyObj 10; PyObj 11]
         Demo.throttled_world) =
  Raise (CollaboratorError "host unreachable").
Proof.
  eapply (collaborator_failure_ends_the_run 10 Sim.kwargs [PyObj 10; PyObj 11]
            Demo.throttled_world)
    with (e := CheckFirebaseStatus "autora" (PyObj 1) (PyInt 420)
                 (Failed "host unreachable"))
         (pre := removelast
                   (events (firebase_prolific_runner 10 Sim.kwargs
                              [PyObj 10; PyObj 11] Demo.throttled_world)));
    vm_compute; reflexivity.
Defined.

(** ** The arguments of the calls *)

Section arguments.
Context {W : Type} `{!Collab W}.
Local Open Scope run_scope.

Lemma emits_bind_getitem {B} (P : event → Prop) (d : pydict) (key : string)
    (k : pyval → M W B) :
  (∀ v, d !! key = Some v → emits P (k v)) → emits P (bind (getitem d key) k).
Proof.
  intros Hk w. destruct (d !! key) as [v|] eqn:Hd.
  - rewrite (bind_getitem_Some d key v) by done. by apply Hk.
  - rewrite bind_getitem_None by done. constructor.
Qed.

(** Discharges [emits] for a computation built from the operations of
    the runners, keeping what the lookups found. *)
Ltac solve_emits :=
  repeat first
    [ apply emits_ret | apply emits_lift | apply emits_getitem
    | apply emits_bind_getitem; intros
    | apply emits_call; intros; simpl; by eauto
    | apply emits_when
    | apply emits_bind; [|intros]
    | match goal with
      | |- emits _ (if ?c then _ else _) => destruct c
      | |- emits _ (match ?x with Continue _ => _ | Return _ => _ end) =>
          destruct x
      | |- emits _ (local _ ?v) =>
          destruct v; [apply emits_ret | apply emits_raise]
      end ].

Lemma setup_configured (conditions : list pyval) (kwargs : pydict) :
  emits (configured kwargs) (setup conditions kwargs).
Proof. unfold setup, send_conditions, setup_study. solve_emits. Qed.

Lemma tick_configured (kwargs : pydict) (l : locals) (cp0 : option pydict) :
  emits (configured kwargs) (tick kwargs l cp0).
Proof.
  unfold tick, poll_prolific, carry_on, reconcile, prolific_status, collect,
    check_firebase_status, check_prolific_status, get_observations,
    publish_study, start_study, pause_study, sleep.
  solve_emits.
Qed.

Lemma _firebase_run_configured (fuel : nat) (conditions : list pyval)
    (kwargs : pydict) :
  emits (host_configured kwargs) (_firebase_run fuel conditions kwargs).
Proof.
  unfold _firebase_run, send_conditions.
  apply emits_bind_getitem; intros creds Hcreds.
  apply emits_bind_getitem; intros tm Htm.
  apply emits_bind_getitem; intros secs Hsecs.
  apply emits_bind; [by apply emits_call|]. intros _.
  apply emits_while. intros u.
  unfold firebase_tick, collect, check_firebase_status, get_observations, sleep.
  solve_emits.
Qed.

(** X6.  Every call of a run of the combined runner passes the values of
    the configuration: the credentials to the host, the description of
    the study and the token to the campaign creation, the token to every
    other call to the recruiter, the sleep time to [sleep].  And every
    call to the recruiter that names a study names the one the campaign
    creation of this run replied with, under ["id"]. *)
Theorem combined_runner_passes_its_configuration (fuel : nat)
    (kwargs : pydict) (conditions : list pyval) (w : W) :
  Forall (configured kwargs)
    (events (firebase_prolific_runner fuel kwargs conditions w)) ∧
  (∀ e sid,
     e ∈ events (firebase_prolific_runner fuel kwargs conditions w) →
     study_of e = Some sid →
     ∃ name desc url ct tok places code d,
       events (firebase_prolific_runner fuel kwargs conditions w) !! 1%nat =
         Some (SetupStudy name desc url ct tok places code (Done d)) ∧
       d !! "id" = Some sid).
Proof.
  run_or_refusal.
  2:{ split; [by apply Forall_nil|]. intros e sid Hin.
      by apply elem_of_nil in Hin. }
  unfold _firebase_prolific_run. split.
  - apply emits_bind; [apply setup_configured|].
    intros l. apply emits_while. intros cp0. apply tick_configured.
  - rewrite events_bind. intros e sid Hin Hsid.
    pose proof (setup_emits conditions kwargs w) as Hsetup.
    destruct (res (setup conditions kwargs w)) as [l|err|] eqn:Hres.
    + destruct (setup_Ret conditions kwargs w l Hres)
        as (creds & name & desc & url & ct & tok & code & mat & Hev & _ & _
            & Hid).
      apply elem_of_app in Hin as [Hin|Hin].
      * eapply Forall_forall in Hsetup; [|done]. by destruct e.
      * pose proof (emits_while (tick_event l) (tick kwargs l)
                      (tick_emits kwargs l) fuel None
                      (world (setup conditions kwargs w))) as Hloop.
        eapply Forall_forall in Hloop; [|done].
        rewrite Hev. simpl.
        exists name, desc, url, ct, tok,
          (PyInt (Z.of_nat (length conditions))), code, (prolific_dict l).
        split; [done|].
        destruct e; simpl in *; simplify_eq; done.
    + rewrite app_nil_r in Hin.
      eapply Forall_forall in Hsetup; [|done]. by destruct e.
    + rewrite app_nil_r in Hin.
      eapply Forall_forall in Hsetup; [|done]. by destruct e.
Qed.

(** X7.  Every call of a run of the host-only runner passes the values
    of the configuration: the credentials to every call, the time-out to
    every status poll, the sleep time to [sleep]. *)
Theorem host_runner_passes_its_configuration (fuel : nat) (kwargs : pydict)
    (conditions : list pyval) (w : W) :
  Forall (host_configured kwargs)
    (events (firebase_runner fuel kwargs conditions w)).
Proof.
  run_or_refusal; [apply _firebase_run_configured | by apply Forall_nil].
Qed.

End arguments.

Lemma combined_runner_passes_its_configuration_witness :
  ∃ d,
    events (firebase_prolific_runner 10 Sim.kwargs [PyObj 10; PyObj 11]
              Demo.campaign_world) !! 1%nat =
      Some (SetupStudy (PyStr "study") (PyStr "description")
              (PyStr "https://example.org") (PyInt 5) (PyStr "token")
              (PyInt 2) (PyStr "code") (Done d)) ∧
    d !! "id" = Some (PyStr "s1").
Proof.
  destruct (combined_runner_passes_its_configuration 10 Sim.kwargs
              [PyObj 10; PyObj 11] Demo.campaign_world) as [_ Hstudy].
  destruct (Hstudy (PublishStudy (PyStr "s1") (PyStr "token") (Done tt))
              (PyStr "s1"))
    as (name & desc & url & ct & tok & places & code & d & Hev & Hd).
  { vm_compute. apply list_elem_of_In. do 4 right. left. reflexivity. }
  { reflexivity. }
  exists d. split; [|done].
  rewrite Hev. revert Hev. vm_compute. by intros [= <- <- <- <- <- <- <- <-].
Defined.

Lemma host_runner_passes_its_configuration_witness :
  Forall (host_configured Sim.kwargs)
    (events (firebase_runner 10 Sim.kwargs [PyObj 10] Demo.host_world)).
Proof.
  apply (host_runner_passes_its_configuration 10 Sim.kwargs [PyObj 10]
           Demo.host_world).
Defined.

(** ** The rhythm of the loop *)

Section rhythm.
Context {W : Type} `{!Collab W}.
Local Open Scope run_scope.

Lemma count_app (f : event → bool) (evs1 evs2 : list event) :
  count f (evs1 ++ evs2) = (count f evs1 + count f evs2)%nat.
Proof. induction evs1 as [|e evs1 IH]; simpl; [done|]. rewrite IH. lia. Qed.

Lemma count_none (f : event → bool) (evs : list event) :
  Forall (λ e, f e = false) evs → count f evs = O.
Proof. induction 1 as [|e evs He _ IH]; simpl; [done|]. by rewrite He. Qed.

Lemma count_concat (f : event → bool) (n : nat) (ticks : list (list event)) :
  Forall (λ t, count f t = n) ticks →
  count f (concat ticks) = (length ticks * n)%nat.
Proof.
  induction 1 as [|t ticks Ht _ IH]; simpl; [done|].
  rewrite count_app, Ht, IH. lia.
Qed.

Lemma actions_count (f : event → bool) (acts : list event) :
  (∀ e, is_Some (recruiter_action e) → f e = false) →
  Forall (λ e, is_Some (recruiter_action e)) acts → count f acts = O.
Proof.
  intros Hf Hacts. apply count_none. eapply Forall_impl; [apply Hacts | done].
Qed.

Lemma carry_on_rhythm (kwargs : pydict) (l : locals) (h : pyval)
    (cp : option pydict) (w : W) :
  count is_host_poll (events (carry_on kwargs l h cp w)) = O ∧
  count is_recruiter_poll (events (carry_on kwargs l h cp w)) = O ∧
  (count is_sleep (events (carry_on kwargs l h cp w)) ≤ 1)%nat ∧
  (∀ x, res (carry_on kwargs l h cp w) = Ret x →
        count is_sleep (events (carry_on kwargs l h cp w)) = 1%nat).
Proof.
  destruct (carry_on_events kwargs l h cp w)
    as (acts & rest & -> & Hacts
        & [[-> [e ->]]|(secs & r & -> & _ & ->)]);
    rewrite !count_app, !(actions_count _ acts) by
      (done || (intros [] [? [=]]; done)); simpl.
  - split_and!; [done | done | lia | done].
  - split_and!; [done | done | lia | done].
Qed.

(** A tick of the combined runner, by its result. *)
Lemma tick_rhythm (kwargs : pydict) (l : locals) (cp0 : option pydict)
    (w : W) :
  dict_truthy (prolific_dict l) = true →
  match res (tick kwargs l cp0 w) with
  | Ret (Continue _) => whole_tick true (events (tick kwargs l cp0 w))
  | _ => cut_tick true (events (tick kwargs l cp0 w))
  end.
Proof.
  intros Htruthy.
  destruct (kwargs !! "firebase_credentials") as [creds|] eqn:Hcreds.
  2:{ unfold tick. exec. simpl. unfold cut_tick. simpl. lia. }
  destruct (ext_check_firebase_status "autora" creds (time_out l) w)
    as [[h|msg] w1] eqn:Hh.
  2:{ unfold tick, check_firebase_status. exec. simpl.
      unfold cut_tick. simpl. lia. }
  destruct (kwargs !! "prolific_token") as [tok|] eqn:Htok.
  2:{ unfold tick, check_firebase_status, poll_prolific. rewrite Htruthy.
      exec. simpl. unfold cut_tick. simpl. lia. }
  destruct (ext_check_prolific_status (study_id l) tok w1)
    as [[cp|msg] w2] eqn:Hcp.
  2:{ unfold tick, check_firebase_status, poll_prolific,
        check_prolific_status. rewrite Htruthy.
      exec. simpl. unfold cut_tick. simpl. lia. }
  rewrite (tick_after_snapshot kwargs l cp0 w w1 w2 creds tok h cp) by done.
  destruct (completion h cp) as [[]|e] eqn:Hc; simpl.
  - destruct (collect_spec (S:=option pydict) creds w2) as (r & -> & ->).
    pose proof (collected_cases (S:=option pydict) r) as Hr.
    destruct r as [obs|msg]; [destruct Hr as (vs & _ & ->)|rewrite Hr];
      unfold cut_tick; simpl; lia.
  - destruct (carry_on_rhythm kwargs l h (Some cp) w2)
      as (Hhost & Hrec & Hsleep & Hret).
    destruct (res (carry_on kwargs l h (Some cp) w2)) as [[cp'|vs]|e|] eqn:Hres;
      unfold whole_tick, cut_tick; simpl;
      rewrite ?Hhost, ?Hrec, ?(Hret _ eq_refl); lia.
  - unfold cut_tick. simpl. lia.
Qed.

(** A tick of the host-only runner, by its result. *)
Lemma firebase_tick_rhythm (creds tm secs : pyval) (u : unit) (w : W) :
  match res (firebase_tick creds tm secs u w) with
  | Ret (Continue _) => whole_tick false (events (firebase_tick creds tm secs u w))
  | _ => cut_tick false (events (firebase_tick creds tm secs u w))
  end.
Proof.
  unfold firebase_tick, check_firebase_status, sleep.
  destruct (ext_check_firebase_status "autora" creds tm w)
    as [[h|msg] w1] eqn:Hh; exec.
  2:{ simpl. unfold cut_tick. simpl. lia. }
  destruct (py_eq_str h "finished") eqn:Hfin; exec.
  - destruct (collect_spec (S:=unit) creds w1) as (r & Hev & Hres).
    simpl. rewrite Hev, Hres.
    pose proof (collected_cases (S:=unit) r) as Hr.
    destruct r as [obs|msg]; [destruct Hr as (vs & _ & ->)|rewrite Hr];
      unfold cut_tick; simpl; lia.
  - destruct (ext_sleep secs w1) as [[[]|msg] w2] eqn:Hs; exec; simpl;
      unfold whole_tick, cut_tick; simpl; lia.
Qed.

(** The polls and the sleeps of a loop alternate. *)
Lemma loop_rhythm {S A} (recruiter : bool) (body : S → M W (step S A))
    (fuel : nat) (s : S) (w : W) :
  (∀ s' w',
     match res (body s' w') with
     | Ret (Continue _) => whole_tick recruiter (events (body s' w'))
     | _ => cut_tick recruiter (events (body s' w'))
     end) →
  rhythm recruiter (events (while_true fuel body s w)).
Proof.
  intros Hbody. revert s w. induction fuel as [|fuel IH]; intros s w; simpl.
  - unfold rhythm. destruct recruiter; simpl; lia.
  - rewrite events_bind. specialize (Hbody s w).
    destruct (res (body s w)) as [[s'|a]|e|];
      rewrite ?app_nil_r; simpl; rewrite ?app_nil_r.
    + specialize (IH s' (world (body s w))).
      destruct Hbody as (Hh & Hr & Hs). unfold rhythm in *.
      rewrite !count_app, Hh, Hr, Hs. destruct recruiter; lia.
    + unfold rhythm, cut_tick in *. destruct recruiter; lia.
    + unfold rhythm, cut_tick in *. destruct recruiter; lia.
    + unfold rhythm, cut_tick in *. destruct recruiter; lia.
Qed.

Lemma rhythm_after (recruiter : bool) (pre evs : list event) :
  count is_host_poll pre = O → count is_recruiter_poll pre = O →
  count is_sleep pre = O →
  rhythm recruiter evs → rhythm recruiter (pre ++ evs).
Proof.
  intros Hh Hr Hs. unfold rhythm. by rewrite !count_app, Hh, Hr, Hs.
Qed.

Lemma _firebase_run_rhythm (fuel : nat) (conditions : list pyval)
    (kwargs : pydict) (w : W) :
  rhythm false (events (_firebase_run fuel conditions kwargs w)).
Proof.
  unfold _firebase_run, send_conditions.
  destruct (kwargs !! "firebase_credentials") as [creds|] eqn:Hcreds; exec;
    [|unfold rhythm; simpl; lia].
  destruct (kwargs !! "time_out") as [tm|] eqn:Htm; exec;
    [|unfold rhythm; simpl; lia].
  destruct (kwargs !! "sleep_time") as [secs|] eqn:Hsecs; exec;
    [|unfold rhythm; simpl; lia].
  destruct (ext_send_conditions "autora" conditions creds w)
    as [[[]|msg] w1] eqn:Hsend; exec; [|unfold rhythm; simpl; lia].
  simpl. apply (rhythm_after false [_]); [done | done | done |].
  apply loop_rhythm. intros u w'. apply firebase_tick_rhythm.
Qed.

Lemma _firebase_prolific_run_rhythm (fuel : nat) (conditions : list pyval)
    (kwargs : pydict) (w : W) :
  rhythm true (events (_firebase_prolific_run fuel conditions kwargs w)).
Proof.
  unfold _firebase_prolific_run. rewrite events_bind.
  pose proof (setup_emits conditions kwargs w) as Hsetup.
  pose proof (setup_post conditions kwargs w) as Htruthy.
  apply rhythm_after.
  1-3: apply count_none; eapply Forall_impl; [apply Hsetup|];
    by intros [].
  destruct (res (setup conditions kwargs w)) as [l|e|];
    [|unfold rhythm; simpl; lia|done].
  apply loop_rhythm. intros cp0 w'. by apply tick_rhythm.
Qed.

(** X8.  The loops never poll twice without a sleep in between, nor
    sleep twice without a poll: in a run of the host-only runner the
    sleeps are as many as the status polls, or one fewer; in a run of
    the combined runner the sleeps are at most as many as the polls of
    the recruiter, those at most as many as the polls of the host, and
    those at most one more than the sleeps. *)
Theorem polls_and_sleeps_alternate (fuel : nat) (kwargs : pydict)
    (conditions : list pyval) (w : W) :
  ((count is_sleep (events (firebase_runner fuel kwargs conditions w)) ≤
    count is_host_poll (events (firebase_runner fuel kwargs conditions w)))%nat ∧
   (count is_host_poll (events (firebase_runner fuel kwargs conditions w)) ≤
    S (count is_sleep (events (firebase_runner fuel kwargs conditions w))))%nat) ∧
  ((count is_sleep
      (events (firebase_prolific_runner fuel kwargs conditions w)) ≤
    count is_recruiter_poll
      (events (firebase_prolific_runner fuel kwargs conditions w)))%nat ∧
   (count is_recruiter_poll
      (events (firebase_prolific_runner fuel kwargs conditions w)) ≤
    count is_host_poll
      (events (firebase_prolific_runner fuel kwargs conditions w)))%nat ∧
   (count is_host_poll
      (events (firebase_prolific_runner fuel kwargs conditions w)) ≤
    S (count is_sleep
         (events (firebase_prolific_runner fuel kwargs conditions w))))%nat).
Proof.
  assert (rhythm false (events (firebase_runner fuel kwargs conditions w)))
    as Hhost.
  { run_or_refusal; [apply _firebase_run_rhythm | unfold rhythm; simpl; lia]. }
  assert (rhythm true
            (events (firebase_prolific_runner fuel kwargs conditions w)))
    as Hboth.
  { run_or_refusal;
      [apply _firebase_prolific_run_rhythm | unfold rhythm; simpl; lia]. }
  unfold rhythm in *. lia.
Qed.

End rhythm.

Lemma polls_and_sleeps_alternate_witness :
  (count is_host_poll
     (events (firebase_prolific_runner 10 Sim.kwargs [PyObj 10; PyObj 11]
                Demo.campaign_world)) ≤
   S (count is_sleep
        (events (firebase_prolific_runner 10 Sim.kwargs [PyObj 10; PyObj 11]
                   Demo.campaign_world))))%nat.
Proof.
  apply (polls_and_sleeps_alternate 10 Sim.kwargs [PyObj 10; PyObj 11]
           Demo.campaign_world).
Defined.

(** * Replies that lack a field *)

Section replies.
Context {W : Type} `{!Collab W}.
Local Open Scope run_scope.

Lemma completion_Err_cases (h : pyval) (cp : pydict) (e : exn) :
  completion h cp = Err e →
  (cp !! "number_of_submissions" = None ∧
   e = KeyError "number_of_submissions") ∨
  (is_Some (cp !! "number_of_submissions") ∧
   cp !! "total_available_places" = None ∧
   e = KeyError "total_available_places") ∨
  (∃ a b,
     cp !! "number_of_submissions" = Some a ∧
     cp !! "total_available_places" = Some b ∧
     py_ge a b = Err TypeError ∧ e = TypeError).
Proof.
  unfold completion, dict_getitem.
  destruct (cp !! "number_of_submissions") as [a|]; [|intros [= <-]; by left].
  destruct (cp !! "total_available_places") as [b|];
    [|intros [= <-]; right; left; eauto].
  destruct (py_ge a b) as [c|e'] eqn:Hge; [done|]. intros [= <-].
  right; right. exists a, b.
  assert (e' = TypeError) as ->; [|done].
  unfold py_ge in Hge. repeat case_match; by simplify_eq.
Qed.

(** X9.  A tick of the combined runner whose recruiter reply cannot be
    judged - a submission counter is missing, or the two cannot be
    compared - raises that error right after the two status reads,
    whatever the host status is: no recruiter action, no fetch and no
    sleep follow. *)
Theorem tick_aborts_on_malformed_status (kwargs : pydict) (l : locals)
    (cp0 : option pydict) (w : W) (h : pyval) (cp : pydict) (e : exn) :
  snapshot (events (tick kwargs l cp0 w)) = Some (h, cp) →
  completion h cp = Err e →
  res (tick kwargs l cp0 w) = Raise e ∧
  (∃ creds tok,
     events (tick kwargs l cp0 w) =
       [CheckFirebaseStatus "autora" creds (time_out l) (Done h);
        CheckProlificStatus (study_id l) tok (Done cp)]) ∧
  ((cp !! "number_of_submissions" = None ∧
    e = KeyError "number_of_submissions") ∨
   (is_Some (cp !! "number_of_submissions") ∧
    cp !! "total_available_places" = None ∧
    e = KeyError "total_available_places") ∨
   (∃ a b,
      cp !! "number_of_submissions" = Some a ∧
      cp !! "total_available_places" = Some b ∧
      py_ge a b = Err TypeError ∧ e = TypeError)).
Proof.
  intros (creds & tok & w1 & w2 & Hcreds & Htok & Htruthy & Hh & Hcp)
    %tick_snapshot_inv Hc.
  rewrite (tick_after_snapshot kwargs l cp0 w w1 w2 creds tok h cp) by done.
  rewrite Hc. simpl. split_and!; [done | by exists creds, tok |].
  by apply (completion_Err_cases h).
Qed.

(** X10.  The campaign status is read only when the host status calls
    for it.  In a tick whose recruiter reply has the counters but no
    ["status"]: with the host available or unavailable the tick raises
    [KeyError] for it right after the two status reads; with any other
    host status the key is not missed, and the tick goes on to sleep. *)
Theorem campaign_status_is_read_on_demand (kwargs : pydict) (l : locals)
    (cp0 : option pydict) (w : W) (h : pyval) (cp : pydict) :
  snapshot (events (tick kwargs l cp0 w)) = Some (h, cp) →
  completion h cp = Ok false →
  cp !! "status" = None →
  ∃ creds tok,
    kwargs !! "prolific_token" = Some tok ∧
    if py_eq_str h "available" || py_eq_str h "unavailable" then
      res (tick kwargs l cp0 w) = Raise (KeyError "status") ∧
      events (tick kwargs l cp0 w) =
        [CheckFirebaseStatus "autora" creds (time_out l) (Done h);
         CheckProlificStatus (study_id l) tok (Done cp)]
    else
      match kwargs !! "sleep_time" with
      | Some secs =>
          ∃ r,
            events (tick kwargs l cp0 w) =
              [CheckFirebaseStatus "autora" creds (time_out l) (Done h);
               CheckProlificStatus (study_id l) tok (Done cp);
               Sleep secs r] ∧
            res (tick kwargs l cp0 w) =
              match r with
              | Done _ => Ret (Continue (Some cp))
              | Failed msg => Raise (CollaboratorError msg)
              end
      | None =>
          res (tick kwargs l cp0 w) = Raise (KeyError "sleep_time") ∧
          events (tick kwargs l cp0 w) =
            [CheckFirebaseStatus "autora" creds (time_out l) (Done h);
             CheckProlificStatus (study_id l) tok (Done cp)]
      end.
Proof.
  intros (creds & tok & w1 & w2 & Hcreds & Htok & Htruthy & Hh & Hcp)
    %tick_snapshot_inv Hc Hstatus.
  exists creds, tok. split; [done|].
  rewrite (tick_after_snapshot kwargs l cp0 w w1 w2 creds tok h cp) by done.
  rewrite Hc.
  unfold carry_on, reconcile, prolific_status, local, sleep.
  destruct (host_cases h) as [[Ha Hu]|[[Ha Hu]|[Ha Hu]]]; rewrite Ha, Hu; simpl.
  - rewrite (py_eq_str_other h "available" "finished") by done.
    exec. done.
  - rewrite (py_eq_str_other h "unavailable" "finished") by done.
    exec. done.
  - rewrite when_pass. exec.
    destruct (kwargs !! "sleep_time") as [secs|] eqn:Hsecs; exec; [|done].
    destruct (ext_sleep secs w2) as [[[]|msg] w3] eqn:Hsleep; exec; simpl.
    + by exists (Done tt).
    + by exists (Failed msg).
Qed.

Lemma setup_reads_reply (conditions : list pyval) (kwargs : pydict) (w : W)
    (name desc url ct tok places code : pyval) (d : pydict) :
  events (setup conditions kwargs w) !! 1%nat =
    Some (SetupStudy name desc url ct tok places code (Done d)) →
  length (events (setup conditions kwargs w)) = 2%nat ∧
  res (setup conditions kwargs w) =
    match campaign_locals d with
    | Ok l => Ret l
    | Err e => Raise e
    end.
Proof.
  unfold setup, send_conditions, setup_study, campaign_locals, dict_getitem.
  exec_cases; simpl; try done;
    intros Hev; injection Hev; intros; subst;
    repeat match goal with H : _ !! _ = _ |- _ => rewrite H end;
    repeat match goal with H : py_mul _ _ = _ |- _ => rewrite H end;
    done.
Qed.

Lemma campaign_locals_Err (d : pydict) (e : exn) :
  campaign_locals d = Err e →
  (d !! "maximum_allowed_time" = None ∧
   e = KeyError "maximum_allowed_time") ∨
  (∃ m, d !! "maximum_allowed_time" = Some m ∧
        py_mul m (PyInt 60) = Err TypeError ∧ e = TypeError) ∨
  (d !! "id" = None ∧ e = KeyError "id").
Proof.
  unfold campaign_locals, dict_getitem.
  destruct (d !! "maximum_allowed_time") as [m|]; [|intros [= <-]; by left].
  destruct (py_mul m (PyInt 60)) as [tm|e'] eqn:Hmul.
  - destruct (d !! "id"); [done|]. intros [= <-]. by right; right.
  - intros [= <-]. right; left. exists m.
    assert (e' = TypeError) as ->; [|done].
    unfold py_mul in Hmul. repeat case_match; by simplify_eq.
Qed.

(** X11.  What a run of the combined runner keeps of the reply to the
    campaign creation is read off that reply: the time-out is its
    ["maximum_allowed_time"] times 60 and the study its ["id"].  A reply
    without one of the two, or with a time that cannot be multiplied,
    ends the run with that error right after the creation: the campaign
    exists, and the run makes no further call about it. *)
Theorem campaign_reply_decides_the_setup (fuel : nat) (kwargs : pydict)
    (conditions : list pyval) (w : W)
    (name desc url ct tok places code : pyval) (d : pydict) :
  events (firebase_prolific_runner fuel kwargs conditions w) !! 1%nat =
    Some (SetupStudy name desc url ct tok places code (Done d)) →
  (∀ l, campaign_locals d = Ok l → res (setup conditions kwargs w) = Ret l) ∧
  (∀ e,
     campaign_locals d = Err e →
     res (firebase_prolific_runner fuel kwargs conditions w) = Raise e ∧
     length (events (firebase_prolific_runner fuel kwargs conditions w)) =
       2%nat ∧
     ((d !! "maximum_allowed_time" = None ∧
       e = KeyError "maximum_allowed_time") ∨
      (∃ m, d !! "maximum_allowed_time" = Some m ∧
            py_mul m (PyInt 60) = Err TypeError ∧ e = TypeError) ∨
      (d !! "id" = None ∧ e = KeyError "id"))).
Proof.
  run_or_refusal; [|done].
  unfold _firebase_prolific_run.
  rewrite events_bind, res_bind. intros Hev.
  assert (events (setup conditions kwargs w) !! 1%nat =
            Some (SetupStudy name desc url ct tok places code (Done d)))
    as Hsetup.
  { destruct (res (setup conditions kwargs w)) as [l|e|] eqn:Hres;
      rewrite ?app_nil_r in Hev; [|done|done].
    destruct (setup_Ret conditions kwargs w l Hres)
      as (? & ? & ? & ? & ? & ? & ? & ? & Hevs & _).
    rewrite Hevs in Hev |- *. done. }
  apply setup_reads_reply in Hsetup as [Hlen Hres].
  rewrite Hres. split.
  - by intros l ->.
  - intros e He. rewrite He, app_nil_r. split_and!; [done | done |].
    by apply campaign_locals_Err.
Qed.

End replies.

Lemma tick_aborts_on_malformed_status_witness :
  res (tick Sim.kwargs Demo.demo_locals None Demo.no_counters) =
    Raise (KeyError "number_of_submissions").
Proof.
  apply (tick_aborts_on_malformed_status Sim.kwargs Demo.demo_locals None
           Demo.no_counters (PyStr "available")
           (list_to_map [("status", PyStr "STARTED")])
           (KeyError "number_of_submissions")).
  - vm_compute. reflexivity.
  - vm_compute. reflexivity.
Defined.

Lemma campaign_status_is_read_on_demand_witness :
  ∃ r,
    events (tick Sim.kwargs Demo.demo_locals None Demo.no_status) =
      [CheckFirebaseStatus "autora" (PyObj 1) (PyInt 420)
         (Done (PyStr "finished"));
       CheckProlificStatus (PyStr "s1") (PyStr "token")
         (Done (list_to_map [("number_of_submissions", PyInt 1);
                             ("total_available_places", PyInt 2)]));
       Sleep (PyInt 10) r].
Proof.
  destruct (campaign_status_is_read_on_demand Sim.kwargs Demo.demo_locals None
              Demo.no_status (PyStr "finished")
              (list_to_map [("number_of_submissions", PyInt 1);
                            ("total_available_places", PyInt 2)]))
    as (creds & tok & Htok & Hrest).
  - vm_compute. reflexivity.
  - vm_compute. reflexivity.
  - vm_compute. reflexivity.
  - destruct Hrest as (r & Hev & _). exists r. rewrite Hev.
    revert Hev. vm_compute. by intros [= <- <- <-].
Defined.

Lemma campaign_reply_decides_the_setup_witness :
  res (firebase_prolific_runner 10 Sim.kwargs [PyObj 10; PyObj 11]
         Demo.no_id) = Raise (KeyError "id") ∧
  length (events (firebase_prolific_runner 10 Sim.kwargs [PyObj 10; PyObj 11]
                    Demo.no_id)) = 2%nat.
Proof.
  destruct (campaign_reply_decides_the_setup 10 Sim.kwargs
              [PyObj 10; PyObj 11] Demo.no_id (PyStr "study")
              (PyStr "description") (PyStr "https://example.org") (PyInt 5)
              (PyStr "token") (PyInt 2) (PyStr "code")
              (list_to_map [("maximum_allowed_time", PyInt 7)]))
    as [_ Herr].
  - vm_compute. reflexivity.
  - destruct (Herr (KeyError "id")) as (Hres & Hlen & _);
      [vm_compute; reflexivity|].
    by split.
Defined.

(** * The first call of a run *)

Section first_call.
Context {W : Type} `{!Collab W}.
Local Open Scope run_scope.

Lemma firebase_tick_sends_nothing (creds tm secs : pyval) (u : unit) :
  emits (λ e, is_send e = false) (firebase_tick creds tm secs u).
Proof.
  unfold firebase_tick, collect, check_firebase_status, get_observations, sleep.
  repeat first
    [ apply emits_ret | apply emits_lift
    | apply emits_call; intros; simpl; done
    | apply emits_bind; [|intros]
    | match goal with
      | |- emits _ (if ?c then _ else _) => destruct c
      end ].
Qed.

Lemma tick_sends_nothing (kwargs : pydict) (l : locals)
    (cp0 : option pydict) :
  emits (λ e, is_send e = false) (tick kwargs l cp0).
Proof.
  eapply emits_impl; [|apply (tick_emits kwargs l cp0)].
  by intros [].
Qed.

(** X12.  The conditions are sent once, unchanged, and before anything
    else: a run of either runner that makes a call at all makes the
    sending of the conditions it was given its first call, under the
    namespace ["autora"], and sends nothing afterwards. *)
Theorem conditions_are_sent_once_first (fuel : nat) (kwargs : pydict)
    (conditions : list pyval) (w : W) :
  sent_first conditions (events (firebase_runner fuel kwargs conditions w)) ∧
  sent_first conditions
    (events (firebase_prolific_runner fuel kwargs conditions w)).
Proof.
  split.
  - run_or_refusal; [|done].
    unfold _firebase_run, send_conditions.
    destruct (kwargs !! "firebase_credentials") as [creds|] eqn:Hcreds; exec;
      [|done].
    destruct (kwargs !! "time_out") as [tm|] eqn:Htm; exec; [|done].
    destruct (kwargs !! "sleep_time") as [secs|] eqn:Hsecs; exec; [|done].
    destruct (ext_send_conditions "autora" conditions creds w)
      as [[[]|msg] w1] eqn:Hsend; exec; simpl.
    + split; [by eexists _, _|].
      apply emits_while. intros u. apply firebase_tick_sends_nothing.
    + split; [by eexists _, _ | by apply Forall_nil].
  - run_or_refusal; [|done].
    unfold _firebase_prolific_run.
    rewrite events_bind.
    destruct (res (setup conditions kwargs w)) as [l|e|] eqn:Hres.
    + destruct (setup_Ret conditions kwargs w l Hres)
        as (creds & name & desc & url & ct & tok & code & mat & -> & _).
      simpl. split; [by eexists _, _|].
      apply Forall_cons; split; [done|].
      apply emits_while. intros cp0. apply tick_sends_nothing.
    + rewrite app_nil_r. clear Hres.
      unfold setup, send_conditions, setup_study.
      exec_cases; simpl; try done;
        (split; [by eexists _, _|]); each_event.
    + rewrite app_nil_r. clear Hres.
      unfold setup, send_conditions, setup_study.
      exec_cases; simpl; try done;
        (split; [by eexists _, _|]); each_event.
Qed.

End first_call.

(** * A configuration without the sleep time *)

Section sleep_time.
Context {W : Type} `{!Collab W}.
Local Open Scope run_scope.

(** A loop whose first iteration does not fall through is over after
    it. *)
Lemma while_true_first_tick {S A} (body : S → M W (step S A)) (fuel : nat)
    (s : S) (w : W) :
  (∀ s', res (body s w) ≠ Ret (Continue s')) →
  events (while_true (Datatypes.S fuel) body s w) = events (body s w) ∧
  res (while_true (Datatypes.S fuel) body s w) =
    match res (body s w) with
    | Ret (Return a) => Ret a
    | Ret (Continue _) => OutOfFuel
    | Raise e => Raise e
    | OutOfFuel => OutOfFuel
    end.
Proof.
  intros Hbody. simpl. rewrite events_bind, res_bind.
  destruct (res (body s w)) as [[s'|a]|e|]; rewrite ?app_nil_r; simpl;
    rewrite ?app_nil_r; try done.
  by destruct (Hbody s').
Qed.

Lemma setup_has_no_sleep_time (conditions : list pyval) (kwargs : pydict)
    (w : W) :
  res (setup conditions kwargs w) ≠ Raise (KeyError "sleep_time").
Proof.
  unfold setup, send_conditions, setup_study.
  exec_cases; simpl; try done.
  intros [= ->]. unfold py_mul in *. repeat case_match; simplify_eq.
Qed.

(** A tick of a run configured without the sleep time. *)
Lemma tick_without_sleep_time (kwargs : pydict) (l : locals)
    (cp0 : option pydict) (w : W) :
  kwargs !! "sleep_time" = None →
  dict_truthy (prolific_dict l) = true →
  (∀ s, res (tick kwargs l cp0 w) ≠ Ret (Continue s)) ∧
  res (tick kwargs l cp0 w) ≠ OutOfFuel ∧
  (res (tick kwargs l cp0 w) = Raise (KeyError "sleep_time") →
   ∃ h cp,
     snapshot (events (tick kwargs l cp0 w)) = Some (h, cp) ∧
     completion h cp = Ok false ∧
     recruiter_actions (events (tick kwargs l cp0 w)) =
       match cp !! "status" with
       | Some s => option_list (precedence_table h s)
       | None => []
       end).
Proof.
  intros Hsecs Htruthy.
  destruct (kwargs !! "firebase_credentials") as [creds|] eqn:Hcreds.
  2:{ unfold tick. exec. simpl. done. }
  destruct (ext_check_firebase_status "autora" creds (time_out l) w)
    as [[h|msg] w1] eqn:Hh.
  2:{ unfold tick, check_firebase_status. exec. simpl. done. }
  destruct (kwargs !! "prolific_token") as [tok|] eqn:Htok.
  2:{ unfold tick, check_firebase_status, poll_prolific. rewrite Htruthy.
      exec. simpl. done. }
  destruct (ext_check_prolific_status (study_id l) tok w1)
    as [[cp|msg] w2] eqn:Hcp.
  2:{ unfold tick, check_firebase_status, poll_prolific,
        check_prolific_status. rewrite Htruthy.
      exec. simpl. done. }
  rewrite (tick_after_snapshot kwargs l cp0 w w1 w2 creds tok h cp) by done.
  destruct (completion h cp) as [[]|e] eqn:Hc; simpl.
  - destruct (collect_spec (S:=option pydict) creds w2) as (r & _ & ->).
    pose proof (collected_cases (S:=option pydict) r) as Hr.
    destruct r as [obs|msg]; [destruct Hr as (vs & _ & ->)|rewrite Hr]; done.
  - pose proof (carry_on_actions kwargs l h cp tok w2 Htok) as Hacts.
    destruct (carry_on_events kwargs l h (Some cp) w2)
      as (acts & rest & Hev & _ & [[-> [e Hres]]|(secs & r & _ & Hs & _)]);
      [|congruence].
    rewrite Hres. split_and!; [done | done |].
    intros _. by exists h, cp.
  - split_and!; [done | done |]. intros [= ->].
    apply completion_Err_cases in Hc
      as [[_ [=]]|[(_ & _ & [=])|(? & ? & _ & _ & _ & [=])]].
Qed.

(** X13.  The combined runner misses ["sleep_time"] late.  A run
    configured without it never sleeps and polls the host at most once:
    the loop is over within its first iteration.  When [KeyError] for
    the key is raised, the conditions have been sent, the campaign has
    been created, both statuses have been read, completion was found
    not to hold, and the recruiter action of the table for them has
    been issued. *)
Theorem combined_runner_misses_sleep_time_late (fuel : nat) (kwargs : pydict)
    (conditions : list pyval) (w : W) :
  kwargs !! "sleep_time" = None →
  count is_sleep
    (events (firebase_prolific_runner fuel kwargs conditions w)) = 0%nat ∧
  (count is_host_poll
     (events (firebase_prolific_runner fuel kwargs conditions w)) ≤ 1)%nat ∧
  (fuel ≠ 0%nat →
   res (firebase_prolific_runner fuel kwargs conditions w) ≠ OutOfFuel) ∧
  (res (firebase_prolific_runner fuel kwargs conditions w) =
     Raise (KeyError "sleep_time") →
   ∃ send create t h cp,
     events (firebase_prolific_runner fuel kwargs conditions w) =
       send :: create :: t ∧
     is_send send = true ∧ failure send = None ∧
     setup_event conditions create ∧ failure create = None ∧
     snapshot t = Some (h, cp) ∧
     completion h cp = Ok false ∧
     recruiter_actions t =
       match cp !! "status" with
       | Some s => option_list (precedence_table h s)
       | None => []
       end).
Proof.
  intros Hsecs. run_or_refusal.
  2:{ simpl. split_and!; [done | lia | done | done]. }
  assert (count is_sleep
            (events (_firebase_prolific_run fuel conditions kwargs w)) =
          0%nat) as Hsleep.
  { apply count_none.
    assert (emits (configured kwargs)
              (_firebase_prolific_run fuel conditions kwargs)) as Hconf.
    { unfold _firebase_prolific_run.
      apply emits_bind; [apply setup_configured|].
      intros l. apply emits_while. intros cp0. apply tick_configured. }
    eapply Forall_impl; [apply Hconf|].
    intros [] He; simpl in *; congruence. }
  split; [done|]. split.
  { pose proof (_firebase_prolific_run_rhythm fuel conditions kwargs w)
      as (_ & _ & Hhost).
    lia. }
  unfold _firebase_prolific_run.
  rewrite events_bind, res_bind.
  pose proof (setup_post conditions kwargs w) as Htruthy.
  pose proof (setup_has_no_sleep_time conditions kwargs w) as Hno.
  destruct (res (setup conditions kwargs w)) as [l|e|] eqn:Hres; [| |done].
  2:{ split; [done|]. intros [= ->]. done. }
  destruct (setup_Ret conditions kwargs w l Hres)
    as (creds & name & desc & url & ct & tok & code & mat & -> & _).
  destruct fuel as [|fuel].
  { split; [done|]. simpl. done. }
  destruct (tick_without_sleep_time kwargs l None
              (world (setup conditions kwargs w)) Hsecs Htruthy)
    as (Hcont & Hfuel & Hkey).
  destruct (while_true_first_tick (tick kwargs l) fuel None
              (world (setup conditions kwargs w)) Hcont) as [-> ->].
  destruct (res (tick kwargs l None (world (setup conditions kwargs w))))
    as [[cp'|vs]|e|] eqn:Htick.
  - by destruct (Hcont cp').
  - split; [done|]. done.
  - split; [done|]. intros [= ->].
    destruct (Hkey eq_refl) as (h & cp & Hsnap & Hc & Hacts).
    eexists _, _, _, h, cp. split; [reflexivity|].
    split_and!; done.
  - done.
Qed.

End sleep_time.

Lemma combined_runner_misses_sleep_time_late_witness :
  res (firebase_prolific_runner 10 Demo.no_sleep_time [PyObj 10; PyObj 11]
         Demo.campaign_world) = Raise (KeyError "sleep_time") ∧
  count is_sleep
    (events (firebase_prolific_runner 10 Demo.no_sleep_time
               [PyObj 10; PyObj 11] Demo.campaign_world)) = 0%nat.
Proof.
  split; [vm_compute; reflexivity|].
  apply (combined_runner_misses_sleep_time_late 10 Demo.no_sleep_time
           [PyObj 10; PyObj 11] Demo.campaign_world).
  vm_compute. reflexivity.
Defined.

(** * The recruiter actions of a run *)

Section actions_of_a_run.
Context {W : Type} `{!Collab W}.
Local Open Scope run_scope.





End actions_of_a_run.

